(** * Questionnaire visualizer: parser, summary, matcher and aligner

    A shallow embedding of the data-processing core of
    [questionnaire_visualizer_updated.py] (class [QuestionnaireAnalyzer] and
    the rating average computed in [main]), with the properties the
    specification states about it.

    Modelling conventions.
    - A Python [str] is a list of Unicode code points ([list N]).
    - A Python [int] is a [Z] (arbitrary precision; the interpreter's optional
      limit on the number of digits accepted by [int()] is not modelled).
    - A Python [dict] is an association list in insertion order with unique
      keys; storing under an existing key replaces the value in place.
    - The quotient of two integers ([/]) is kept as the exact rational [Q];
      Python rounds that rational to the nearest double.
    - [jieba.cut] and the iteration order of a Python [set] are not part of
      the program: they are Section variables. *)

From Stdlib Require Import ZArith NArith QArith Lia Ascii String.
From stdpp Require Import base option list gmap sets.

Local Open Scope nat_scope.
Local Open Scope list_scope.

(** ** Python strings *)

Module PyStr.

Definition char := N.
Definition str := list char.

(** UTF-8 decoding, used only to write string constants readably. *)
Fixpoint utf8_decode (bs : list N) : str :=
  match bs with
  | [] => []
  | b1 :: rest1 =>
    if (b1 <? 128)%N then b1 :: utf8_decode rest1
    else match rest1 with
    | [] => [b1]
    | b2 :: rest2 =>
      if (b1 <? 224)%N then
        ((b1 mod 32) * 64 + b2 mod 64)%N :: utf8_decode rest2
      else match rest2 with
      | [] => [b1; b2]
      | b3 :: rest3 =>
        if (b1 <? 240)%N then
          ((b1 mod 16) * 4096 + (b2 mod 64) * 64 + b3 mod 64)%N
            :: utf8_decode rest3
        else match rest3 with
        | [] => [b1; b2; b3]
        | b4 :: rest4 =>
          ((b1 mod 8) * 262144 + (b2 mod 64) * 4096 + (b3 mod 64) * 64
             + b4 mod 64)%N :: utf8_decode rest4
        end
      end
    end
  end.

Definition u (s : string) : str :=
  utf8_decode (List.map N_of_ascii (list_ascii_of_string s)).

(** [str.isspace] on one code point (the set [str.strip] removes). *)
Definition isspace (c : char) : bool :=
  ((9 <=? c) && (c <=? 13) || (28 <=? c) && (c <=? 32)
   || (c =? 133) || (c =? 160) || (c =? 5760)
   || (8192 <=? c) && (c <=? 8202)
   || (c =? 8232) || (c =? 8233) || (c =? 8239) || (c =? 8287)
   || (c =? 12288))%N.

Fixpoint lstrip_by (p : char -> bool) (s : str) : str :=
  match s with
  | [] => []
  | c :: s' => if p c then lstrip_by p s' else s
  end.

Definition rstrip_by (p : char -> bool) (s : str) : str :=
  rev (lstrip_by p (rev s)).

Definition strip_by (p : char -> bool) (s : str) : str :=
  rstrip_by p (lstrip_by p s).

(** [s.strip()] *)
Definition strip (s : str) : str := strip_by isspace s.

(** [s.rstrip('\t')] *)
Definition rstrip_tab (s : str) : str := rstrip_by (fun c => (c =? 9)%N) s.

(** [s.startswith(p)] *)
Fixpoint startswith (p s : str) : bool :=
  match p, s with
  | [], _ => true
  | _ :: _, [] => false
  | a :: p', b :: s' => (a =? b)%N && startswith p' s'
  end.

(** [sub in s] *)
Fixpoint contains (sub s : str) : bool :=
  startswith sub s ||
  match s with
  | [] => false
  | _ :: s' => contains sub s'
  end.

(** [s.split(c)] for a one-character separator: never empty. *)
Fixpoint split (c : char) (s : str) : list str :=
  match s with
  | [] => [[]]
  | x :: s' =>
    if (x =? c)%N then [] :: split c s'
    else match split c s' with
         | [] => [[x]]
         | w :: ws => (x :: w) :: ws
         end
  end.

(** [s.split(c)[0]]: the text before the first [c] (all of [s] without one). *)
Definition before_first (c : char) (s : str) : str :=
  match split c s with
  | [] => []
  | w :: _ => w
  end.

(** [s.split(c, 1)[1]]: the text after the first [c]; [None] stands for the
    [IndexError] raised when [c] does not occur. *)
Fixpoint after_first (c : char) (s : str) : option str :=
  match s with
  | [] => None
  | x :: s' => if (x =? c)%N then Some s' else after_first c s'
  end.

(** Decimal digits (Unicode category Nd): they come in runs of ten whose
    first code point carries the value 0. *)
Definition decimal_zeros : list N :=
  [48; 1632; 1776; 1984; 2406; 2534; 2662; 2790; 2918; 3046; 3174; 3302;
   3430; 3558; 3664; 3792; 3872; 4160; 4240; 6112; 6160; 6470; 6608; 6784;
   6800; 6992; 7088; 7232; 7248; 42528; 43216; 43264; 43472; 43504; 43600;
   44016; 65296; 66720; 68912; 69734; 69872; 69942; 70096; 70384; 70736;
   70864; 71248; 71360; 71472; 71904; 72016; 72784; 73040; 73120; 92768;
   92864; 93008; 120782; 120792; 120802; 120812; 120822; 123200; 123632;
   125264; 130032]%N.

Definition decimal_value (c : char) : option Z :=
  match List.find (fun z => (z <=? c) && (c <=? z + 9))%N decimal_zeros with
  | Some z => Some (Z.of_N (c - z))
  | None => None
  end.

(** [\d] of the [re] module on [str] patterns, and [str.isdecimal]. *)
Definition isdecimal (c : char) : bool :=
  match decimal_value c with Some _ => true | None => false end.

(** The value of a run of decimal digits, most significant first. *)
Fixpoint digits_value (acc : Z) (s : str) : option Z :=
  match s with
  | [] => Some acc
  | c :: s' =>
    match decimal_value c with
    | Some d => digits_value (10 * acc + d)%Z s'
    | None => None
    end
  end.

(** The whitespace [int()] skips around the literal: ASCII blanks and the
    non-ASCII code points of [isspace] (the ASCII separators 28..31 are
    stripped by [str.strip] but rejected by [int()]). *)
Definition int_space (c : char) : bool :=
  ((9 <=? c) && (c <=? 13) || (c =? 32) || (128 <=? c) && isspace c)%N.

(** Digits with single underscores between them: [prev_digit] tells whether
    the previous character was a digit. *)
Fixpoint int_body (prev_digit : bool) (acc : Z) (s : str) : option Z :=
  match s with
  | [] => if prev_digit then Some acc else None
  | c :: s' =>
    if (c =? 95)%N then
      if prev_digit then int_body false acc s' else None
    else
      match decimal_value c with
      | Some d => int_body true (10 * acc + d)%Z s'
      | None => None
      end
  end.

(** [int(s)]; [None] stands for [ValueError]. *)
Definition py_int (s : str) : option Z :=
  match strip_by int_space s with
  | [] => None
  | c :: s' =>
    if (c =? 45)%N then option_map Z.opp (int_body false 0%Z s')
    else if (c =? 43)%N then int_body false 0%Z s'
    else int_body false 0%Z (c :: s')
  end.

(** [re.search(r': (\d+)', s)]: group 1 of the leftmost match, the longest
    run of decimal digits that follows a colon and a space. *)
Fixpoint take_digits (s : str) : str :=
  match s with
  | [] => []
  | c :: s' => if isdecimal c then c :: take_digits s' else []
  end.

Fixpoint re_search_count (s : str) : option str :=
  match s with
  | [] => None
  | c :: s' =>
    match s' with
    | sp :: d :: _ =>
      if (c =? 58)%N && (sp =? 32)%N && isdecimal d
      then Some (take_digits (List.tl s'))
      else re_search_count s'
    | _ => None
    end
  end.

End PyStr.

Import PyStr.

(** ** Data model *)

Inductive QType := single_choice | multiple_choice | rating | fill_in_blank.

#[global] Instance QType_eq_dec : EqDecision QType.
Proof. solve_decision. Defined.

(** A question record: the dict with keys ['text'], ['type'], ['options']
    and ['data'] built by the parser. *)
Record Question := mkQuestion {
  text : str;
  qtype : QType;
  options : list str;
  data : list Z
}.

(** A dict keyed by strings, in insertion order. *)
Definition Dict (V : Type) := list (str * V).

(** [d[k] = v] *)
Fixpoint dict_set {V : Type} (k : str) (v : V) (d : Dict V) : Dict V :=
  match d with
  | [] => [(k, v)]
  | (k', v') :: d' =>
    if decide (k' = k) then (k', v) :: d' else (k', v') :: dict_set k v d'
  end.

Definition Survey := Dict Question.

(** [self.question_types], in the order its keys are iterated. *)
Definition question_types : list (str * QType) :=
  [(u "单选题", single_choice); (u "多选题", multiple_choice);
   (u "评分题", rating); (u "填空题", fill_in_blank)].

Definition marker : str := Eval vm_compute in u "问题".
Definition lbracket : char := 12304%N.   (* 【 *)
Definition rbracket : char := 12305%N.   (* 】 *)
Definition colon : char := 58%N.
Definition newline : char := 10%N.

(** ** The parser ([parse_md_metadata_with_data]) *)

(** [line.startswith('问题') and '【' in line and '】' in line] *)
Definition is_question_header (line : str) : bool :=
  startswith marker line && contains [lbracket] line && contains [rbracket] line.

(** The [for qtype in self.question_types.keys()] loop with its [break]. *)
Definition lookup_question_type (line : str) : option QType :=
  match List.find
          (fun e => contains (lbracket :: fst e ++ [rbracket]) line)
          question_types with
  | Some e => Some (snd e)
  | None => None
  end.

(** [line.split('】', 1)[1] if '】' in line else line], then
    [.strip().rstrip('\t')] *)
Definition extract_question_text (line : str) : str :=
  rstrip_tab (strip (if contains [rbracket] line
                     then default line (after_first rbracket line)
                     else line)).

(** The [fill_in_blank] branch: [int(data_line)], 0 on any exception. *)
Definition fill_in_blank_line (data_line : str) (q : Question) : Question :=
  mkQuestion (text q) (qtype q) (options q)
             [default 0%Z (py_int data_line)].

(** The branch of the other types. [int()] cannot fail on group 1, a run of
    decimal digits (lemma [py_int_take_digits]). *)
Definition option_line (data_line : str) (q : Question) : Question :=
  if contains [colon] data_line then
    let option_name := strip (before_first colon data_line) in
    match re_search_count data_line with
    | Some group1 =>
      match py_int group1 with
      | Some count =>
        mkQuestion (text q) (qtype q)
                   (options q ++ [option_name]) (data q ++ [count])
      | None => q
      end
    | None => q
    end
  else q.

(** The nested [while i < len(lines)] loop reading the data lines of one
    question. It returns the cursor and the question when it exits. *)
Fixpoint data_while (fuel : nat) (lines : list str) (question_type : QType)
    (i : nat) (current_question : Question) : option (nat * Question) :=
  match fuel with
  | O => None
  | S fuel' =>
    match lines !! i with
    | None => Some (i, current_question)
    | Some l =>
      let data_line := strip l in
      if decide (data_line = []) then
        data_while fuel' lines question_type (S i) current_question
      else if is_question_header data_line then
        Some (i, current_question)
      else
        match question_type with
        | fill_in_blank =>
          Some (S i, fill_in_blank_line data_line current_question)
        | _ =>
          data_while fuel' lines question_type (S i)
                     (option_line data_line current_question)
        end
    end
  end.

(** [if current_question is not None:
       questions[current_question_text] = current_question].
    The stored dict is never mutated afterwards (the nested loop only
    mutates a question created just before it runs), so storing the value
    is the same as storing the reference. *)
Definition save (current : option (str * Question)) (questions : Survey)
    : Survey :=
  match current with
  | Some (current_question_text, current_question) =>
    dict_set current_question_text current_question questions
  | None => questions
  end.

(** The outer [while i < len(lines)] loop, followed by the final save. *)
Fixpoint question_while (fuel : nat) (lines : list str) (i : nat)
    (current : option (str * Question)) (questions : Survey)
    : option Survey :=
  match fuel with
  | O => None
  | S fuel' =>
    match lines !! i with
    | None => Some (save current questions)
    | Some l =>
      let line := strip l in
      if is_question_header line then
        let questions := save current questions in
        match lookup_question_type line with
        | None => question_while fuel' lines (S i) current questions
        | Some question_type =>
          let question_text := extract_question_text line in
          let current_question :=
            mkQuestion question_text question_type [] [] in
          match data_while fuel' lines question_type (S i)
                           current_question with
          | None => None
          | Some (i', current_question') =>
            question_while fuel' lines i'
                           (Some (question_text, current_question'))
                           questions
          end
        end
      else question_while fuel' lines (S i) current questions
    end
  end.

Definition parse_lines (lines : list str) : option Survey :=
  question_while (S (length lines)) lines 0 None [].

Definition parse_md_metadata_with_data (md_content : str) : option Survey :=
  parse_lines (split newline md_content).

(** A count is present in [s]: a colon, a space and a decimal digit occur in
    a row, [a] being the text before them (what [': (\d+)'] matches). *)
Definition count_at (a : str) (s : str) : Prop :=
  exists d b, s = a ++ colon :: 32%N :: d :: b /\ isdecimal d = true.

(** What a data line of a choice or rating block records, in the words of
    the specification: a line with a colon, a space and decimal digits in a
    row records the trimmed text before its first colon with the value of
    the digits after the leftmost such colon and space, whatever follows the
    digits; any other line records nothing. *)
Definition line_records (l : str) (r : option (str * Z)) : Prop :=
  match r with
  | Some (option_name, count) =>
    exists label tail pre digits rest,
      strip l = label ++ colon :: tail /\ (colon ∉ label)
      /\ option_name = strip label
      /\ strip l = pre ++ colon :: 32%N :: digits ++ rest
      /\ digits <> [] /\ Forall (fun c => isdecimal c = true) digits
      /\ (forall c rest', rest = c :: rest' -> isdecimal c = false)
      /\ (forall a, count_at a (strip l) -> length pre <= length a)
      /\ digits_value 0 digits = Some count /\ (0 <= count)%Z
  | None => forall a, ~ count_at a (strip l)
  end.

(** *** The same scan, one line at a time

    The two loops, read as a machine that consumes the lines in order: it is
    either in the outer loop or inside the nested loop of a question. A
    question header met by the nested loop ends it and is then read again by
    the outer loop. [question_while_fold] relates the loops to this
    reading. *)

Inductive scan_state :=
| Outer (current : option (str * Question)) (questions : Survey)
| Inner (question_type : QType) (question_text : str)
        (current_question : Question) (questions : Survey).

Definition outer_step (current : option (str * Question))
    (questions : Survey) (l : str) : scan_state :=
  let line := strip l in
  if is_question_header line then
    let questions := save current questions in
    match lookup_question_type line with
    | None => Outer current questions
    | Some question_type =>
      let question_text := extract_question_text line in
      Inner question_type question_text
            (mkQuestion question_text question_type [] []) questions
    end
  else Outer current questions.

Definition line_step (st : scan_state) (l : str) : scan_state :=
  match st with
  | Outer current questions => outer_step current questions l
  | Inner question_type question_text current_question questions =>
    let data_line := strip l in
    if decide (data_line = []) then st
    else if is_question_header data_line then
      outer_step (Some (question_text, current_question)) questions l
    else
      match question_type with
      | fill_in_blank =>
        Outer (Some (question_text,
                     fill_in_blank_line data_line current_question))
              questions
      | _ =>
        Inner question_type question_text
              (option_line data_line current_question) questions
      end
  end.

Definition finish (st : scan_state) : Survey :=
  match st with
  | Outer current questions => save current questions
  | Inner _ question_text current_question questions =>
    save (Some (question_text, current_question)) questions
  end.

Definition scan_lines (lines : list str) : Survey :=
  finish (fold_left line_step lines (Outer None [])).

(** The lines strictly between [h] and [i] are blank. *)
Definition blank_between (lines : list str) (h i : nat) : Prop :=
  forall j l, h < j -> j < i -> lines !! j = Some l -> strip l = [].

(** Line [h] is the question line of the fill-in-blank question [q], which
    has no option. *)
Definition block_header (lines : list str) (h : nat) (q : Question) : Prop :=
  exists hl,
    lines !! h = Some hl
    /\ is_question_header (strip hl) = true
    /\ lookup_question_type (strip hl) = Some fill_in_blank
    /\ text q = extract_question_text (strip hl)
    /\ options q = [].

(** The one data line of the block of line [h]: the first line after [h]
    that is not blank, when it is not a question line. The count of [q] is
    what [int()] reads from it, 0 when it does not parse. *)
Definition block_data (lines : list str) (h : nat) (q : Question) : Prop :=
  exists i l,
    h < i /\ lines !! i = Some l /\ blank_between lines h i
    /\ strip l <> [] /\ is_question_header (strip l) = false
    /\ data q = [default 0%Z (py_int (strip l))].

(** The block of line [h] has no data line because the first line after [h]
    that is not blank is a question line: [q] has no count. *)
Definition block_cut (lines : list str) (h : nat) (q : Question) : Prop :=
  data q = []
  /\ exists i l,
       h < i /\ lines !! i = Some l /\ blank_between lines h i
       /\ is_question_header (strip l) = true.

(** The block of line [h] has no data line because only blank lines follow
    [h]: [q] has no count. *)
Definition block_open (lines : list str) (h : nat) (q : Question) : Prop :=
  data q = [] /\ blank_between lines h (length lines).

(** A fill-in-blank question whose block has ended inside [lines]. *)
Definition fill_in_blank_closed (lines : list str) (q : Question) : Prop :=
  exists h, block_header lines h q
            /\ (block_data lines h q \/ block_cut lines h q).

(** A fill-in-blank question and its block in the document. *)
Definition fill_in_blank_block (lines : list str) (q : Question) : Prop :=
  exists h, block_header lines h q
            /\ (block_data lines h q \/ block_cut lines h q
                \/ block_open lines h q).

(** The shape of a choice or rating question. *)
Definition parallel_counts (q : Question) : Prop :=
  length (options q) = length (data q)
  /\ Forall (fun count => (0 <= count)%Z) (data q).

(** The shape of a parsed question. *)
Definition question_shape (lines : list str) (q : Question) : Prop :=
  match qtype q with
  | fill_in_blank => fill_in_blank_block lines q
  | _ =>
    length (options q) = length (data q)
    /\ Forall (fun count => (0 <= count)%Z) (data q)
  end.

(** The invariant of the scan after the lines [pre]: every question that
    has been stored, or is waiting to be stored, is stored under its own
    text, and it has the shape above with a block that has ended; the
    question of the nested loop has its type and text, and the block of a
    fill-in-blank question has only had blank lines so far. *)
Definition stored_ok (pre : list str) (k : str) (q : Question) : Prop :=
  k = text q
  /\ match qtype q with
     | fill_in_blank => fill_in_blank_closed pre q
     | _ => parallel_counts q
     end.

Definition state_ok (pre : list str) (st : scan_state) : Prop :=
  match st with
  | Outer cur qs =>
    (forall k q, cur = Some (k, q) -> stored_ok pre k q)
    /\ (forall k q, (k, q) ∈ qs -> stored_ok pre k q)
  | Inner ty txt cq qs =>
    qtype cq = ty /\ txt = text cq
    /\ match ty with
       | fill_in_blank =>
         exists h, block_header pre h cq /\ block_open pre h cq
       | _ => parallel_counts cq
       end
    /\ (forall k q, (k, q) ∈ qs -> stored_ok pre k q)
  end.

(** ** The summary ([generate_summary_report]) *)

Record Summary := mkSummary {
  total_responses : Z;
  analyzed_questions : nat;
  skipped_questions : nat
}.

(** [sum(l)] *)
Definition sum_list (l : list Z) : Z := fold_left Z.add l 0%Z.

(** One iteration of [for q_info in self.questions.values()]. *)
Definition summary_step (acc : Summary) (q_info : Question) : Summary :=
  match qtype q_info with
  | fill_in_blank =>
    mkSummary
      (match data q_info with
       | [] => total_responses acc
       | d0 :: _ => Z.max (total_responses acc) d0
       end)
      (analyzed_questions acc)
      (S (skipped_questions acc))
  | _ =>
    mkSummary
      (match data q_info with
       | [] => total_responses acc
       | _ :: _ => Z.max (total_responses acc) (sum_list (data q_info))
       end)
      (S (analyzed_questions acc))
      (skipped_questions acc)
  end.

(** [None] is the [return None] of the [if not self.questions] guard. *)
Definition generate_summary_report (questions : Survey) : option Summary :=
  match questions with
  | [] => None
  | _ :: _ =>
    Some (fold_left summary_step (List.map snd questions) (mkSummary 0 0 0))
  end.

(** The candidate a question contributes to the total, in the words of the
    specification: the stored count of a fill-in-blank question (none when it
    has no count), the sum of the counts of any other question. *)
Definition candidate (q : Question) : option Z :=
  match qtype q with
  | fill_in_blank => head (data q)
  | _ => Some (sum_list (data q))
  end.

Definition candidates (questions : Survey) : list Z :=
  omap (fun item => candidate (snd item)) questions.

Definition count_type (P : QType -> bool) (questions : Survey) : nat :=
  length (List.filter (fun item => P (qtype (snd item))) questions).

Definition is_fill_in_blank (ty : QType) : bool :=
  bool_decide (ty = fill_in_blank).

(** ** The rating average (the [rating] branch of [main]) *)

(** One iteration of [for option, count in zip(options, data)]: the
    [except: continue] leaves both totals as they are. *)
Definition rating_step (acc : Z * Z) (oc : str * Z) : Z * Z :=
  match py_int (fst oc) with
  | Some score => (fst acc + score * snd oc, snd acc + snd oc)%Z
  | None => acc
  end.

Definition rating_totals (question_info : Question) : Z * Z :=
  fold_left rating_step
            (combine (options question_info) (data question_info)) (0, 0)%Z.

(** The average that is displayed, if any: [total_score / total_count]. *)
Definition rating_average (question_info : Question) : option Q :=
  match qtype question_info, data question_info with
  | rating, _ :: _ =>
    let (total_score, total_count) := rating_totals question_info in
    if (0 <? total_count)%Z
    then Some (total_score # Z.to_pos total_count)%Q
    else None
  | _, _ => None
  end.

(** The pairs the specification includes in the average: those whose option
    label parses as an integer, as (rating, count). *)
Definition included_pairs (question_info : Question) : list (Z * Z) :=
  omap (fun oc => match py_int (fst oc) with
                  | Some score => Some (score, snd oc)
                  | None => None
                  end)
       (combine (options question_info) (data question_info)).

Definition sum_scores (l : list (Z * Z)) : Z :=
  sum_list (List.map (fun rc => fst rc * snd rc)%Z l).

Definition sum_counts (l : list (Z * Z)) : Z :=
  sum_list (List.map snd l).

(** ** The matcher ([find_matching_questions]) *)

Record MatchedPair := mkMatchedPair {
  question1 : str;
  question2 : str;
  mtype : QType;
  similarity : Q;
  data1 : Question;
  data2 : Question
}.

(** [calculate_text_similarity]; [cut] is [jieba.cut]. *)
Definition calculate_text_similarity (cut : str -> list str)
    (text1 text2 : str) : Q :=
  let words1 : gset str := list_to_set (cut text1) in
  let words2 : gset str := list_to_set (cut text2) in
  if decide (words1 = ∅ \/ words2 = ∅) then 0%Q
  else
    let intersection := words1 ∩ words2 in
    let union := words1 ∪ words2 in
    (Z.of_nat (size intersection) # Pos.of_nat (size union))%Q.

(** The threshold [0.6]. *)
Definition threshold : Q := (6 # 10)%Q.

(** [similarity > 0.6] *)
Definition above_threshold (similarity : Q) : bool :=
  negb (Qle_bool similarity threshold).

(** The body of the two nested [for] loops for one pair of items. *)
Definition match_items (cut : str -> list str)
    (item1 item2 : str * Question) : list MatchedPair :=
  let (q1_text, q1_info) := item1 in
  let (q2_text, q2_info) := item2 in
  if bool_decide (qtype q1_info = qtype q2_info)
     && bool_decide (qtype q1_info <> fill_in_blank) then
    let similarity := calculate_text_similarity cut q1_text q2_text in
    if above_threshold similarity then
      [mkMatchedPair q1_text q2_text (qtype q1_info) similarity
                     q1_info q2_info]
    else []
  else [].

(** [matching_pairs] when the loops are done, in the order of the appends. *)
Definition encountered_pairs (cut : str -> list str)
    (questions comparison_questions : Survey) : list MatchedPair :=
  flat_map (fun item1 =>
              flat_map (fun item2 => match_items cut item1 item2)
                       comparison_questions)
           questions.

(** [matching_pairs.sort(key=lambda x: x['similarity'], reverse=True)]:
    Python's sort is stable, also with [reverse=True]. It is rendered as a
    stable insertion sort in descending order of the key. *)
Fixpoint insert_desc (x : MatchedPair) (l : list MatchedPair)
    : list MatchedPair :=
  match l with
  | [] => [x]
  | y :: l' =>
    if Qle_bool (similarity y) (similarity x) then x :: l
    else y :: insert_desc x l'
  end.

Definition sort_desc (l : list MatchedPair) : list MatchedPair :=
  fold_right insert_desc [] l.

Definition find_matching_questions (cut : str -> list str)
    (questions comparison_questions : Survey) : list MatchedPair :=
  match questions, comparison_questions with
  | [], _ | _, [] => []
  | _, _ => sort_desc (encountered_pairs cut questions comparison_questions)
  end.

(** The Jaccard similarity of two token sets in the words of the
    specification: the size of the intersection over the size of the union,
    0 when either set is empty. *)
Definition tokens (cut : str -> list str) (text : str) : gset str :=
  list_to_set (cut text).

Definition jaccard (A B : gset str) : Q :=
  if decide (A = ∅ \/ B = ∅) then 0%Q
  else (inject_Z (Z.of_nat (size (A ∩ B)))
        / inject_Z (Z.of_nat (size (A ∪ B))))%Q.

(** [x] comes before [y] in [l]. *)
Definition before {A : Type} (l : list A) (x y : A) : Prop :=
  exists i j, i < j /\ l !! i = Some x /\ l !! j = Some y.

(** ** The aligner (the first part of [create_single_choice_comparison] and
    of [create_multiple_choice_comparison]) *)

(** [l.index(x)] for an [x] that occurs in [l]. *)
Fixpoint index_of (x : str) (l : list str) : option nat :=
  match l with
  | [] => None
  | y :: l' => if decide (y = x) then Some 0 else option_map S (index_of x l')
  end.

(** The count appended for one option on one side; [None] is the
    [IndexError] of [data[idx]]. *)
Definition side_count (option_ : str) (d : Question) : option Z :=
  if bool_decide (option_ ∈ options d) then
    match index_of option_ (options d) with
    | Some idx => data d !! idx
    | None => None
    end
  else Some 0%Z.

(** The [for option in all_options] loop. *)
Fixpoint align_loop (all_options : list str) (data1 data2 : Question)
    : option (list Z * list Z) :=
  match all_options with
  | [] => Some ([], [])
  | option_ :: rest =>
    match side_count option_ data1, side_count option_ data2,
          align_loop rest data1 data2 with
    | Some c1, Some c2, Some (counts1, counts2) =>
      Some (c1 :: counts1, c2 :: counts2)
    | _, _, _ => None
    end
  end.

Record AlignedComparison := mkAligned {
  all_options : list str;
  counts1 : list Z;
  counts2 : list Z
}.

(** [set_to_list] is [list(...)] applied to a Python [set]. *)
Definition align (set_to_list : gset str -> list str)
    (data1 data2 : Question) : option AlignedComparison :=
  let all_options :=
    set_to_list (list_to_set (options data1 ++ options data2)) in
  match align_loop all_options data1 data2 with
  | Some (counts1, counts2) => Some (mkAligned all_options counts1 counts2)
  | None => None
  end.

Definition create_single_choice_comparison := align.
Definition create_multiple_choice_comparison := align.

(** The count that corresponds to an option on one side, in the words of
    the specification: 0 when the side does not have the option, else the
    count at the position of the option (its first position). *)
Definition corresponding_count (d : Question) (o : str) (c : Z) : Prop :=
  ((o ∉ options d) /\ c = 0%Z)
  \/ (exists j, options d !! j = Some o
               /\ (forall j', j' < j -> options d !! j' <> Some o)
               /\ data d !! j = Some c).

(** The survey held by a state of the scan. *)
Definition questions_of (st : scan_state) : Survey :=
  match st with
  | Outer _ qs => qs
  | Inner _ _ _ qs => qs
  end.

(** A question line with one of the four type labels. *)
Definition is_recognized_header (l : str) : bool :=
  is_question_header (strip l)
  && match lookup_question_type (strip l) with
     | Some _ => true
     | None => false
     end.

(** A matched pair read from the side of the second survey. *)
Definition swap_pair (p : MatchedPair) : MatchedPair :=
  mkMatchedPair (question2 p) (question1 p) (mtype p) (similarity p)
                (data2 p) (data1 p).

(** ** Further operations of the analyzer *)

(** [d[k]], with [None] for a key that is not in [d]
    ([question_text not in self.questions]). *)
Fixpoint dict_get {V : Type} (k : str) (d : Dict V) : option V :=
  match d with
  | [] => None
  | (k', v) :: d' => if decide (k' = k) then Some v else dict_get k d'
  end.

(** What can be raised by the code below. *)
Inductive exn := IndexError | ZeroDivisionError.

Inductive outcome (A : Type) :=
| Returned (a : A)
| Raised (e : exn).
Arguments Returned {A} a.
Arguments Raised {A} e.

(** The percentages of [create_single_choice_comparison]:
    [total = sum(counts) if sum(counts) > 0 else 1] and
    [count/total*100] for every count. *)
Definition chart_total (counts : list Z) : Z :=
  if (0 <? sum_list counts)%Z then sum_list counts else 1%Z.

Definition chart_percentages (counts : list Z) : list Q :=
  List.map (fun count =>
              (inject_Z count / inject_Z (chart_total counts) * 100)%Q)
           counts.

(** [a / b] on integers; [None] is [ZeroDivisionError]. *)
Definition truediv (a b : Z) : option Q :=
  if (b =? 0)%Z then None else Some (inject_Z a / inject_Z b)%Q.

(** A row of the detailed comparison table of [main] (and of the CSV
    export): option, count and percentage on each side, and the difference
    of the percentages. The formatting of the numbers is left out. *)
Record ComparisonRow := mkRow {
  row_option : str;
  row_count1 : Z;
  row_percentage1 : Q;
  row_count2 : Z;
  row_percentage2 : Q;
  row_difference : Q
}.

(** [sum(data) if data else 1] *)
Definition table_total (d : Question) : Z :=
  match data d with
  | [] => 1%Z
  | _ :: _ => sum_list (data d)
  end.

(** The body of [for option in all_options] in the table of [main]. *)
Definition comparison_row (d1 d2 : Question) (option_ : str)
    : outcome ComparisonRow :=
  match side_count option_ d1, side_count option_ d2 with
  | Some count1, Some count2 =>
    match truediv count1 (table_total d1),
          truediv count2 (table_total d2) with
    | Some f1, Some f2 =>
      Returned (mkRow option_ count1 (f1 * 100)%Q count2 (f2 * 100)%Q
                      ((f2 - f1) * 100)%Q)
    | _, _ => Raised ZeroDivisionError
    end
  | _, _ => Raised IndexError
  end.

Fixpoint comparison_rows (d1 d2 : Question) (all_options : list str)
    : outcome (list ComparisonRow) :=
  match all_options with
  | [] => Returned []
  | option_ :: rest =>
    match comparison_row d1 d2 option_ with
    | Raised e => Raised e
    | Returned row =>
      match comparison_rows d1 d2 rest with
      | Raised e => Raised e
      | Returned rows => Returned (row :: rows)
      end
    end
  end.

Definition comparison_table (set_to_list : gset str -> list str)
    (d1 d2 : Question) : outcome (list ComparisonRow) :=
  comparison_rows d1 d2
    (set_to_list (list_to_set (options d1 ++ options d2))).

(** ** The simulated data table ([create_data_from_parsed_questions]) *)

(** The first loop and the default of 100. *)
Definition max_responses_step (max_responses : Z) (q_info : Question) : Z :=
  match qtype q_info, data q_info with
  | fill_in_blank, _ | _, [] => max_responses
  | _, _ :: _ => Z.max max_responses (sum_list (data q_info))
  end.

Definition max_responses_of (questions : Survey) : Z :=
  let max_responses :=
    fold_left max_responses_step (List.map snd questions) 0%Z in
  if (max_responses =? 0)%Z then 100%Z else max_responses.

(** [responses.extend([option] * count)] over the zipped pairs. *)
Definition expand_responses (q_info : Question) : list str :=
  flat_map (fun oc => replicate (Z.to_nat (snd oc)) (fst oc))
           (combine (options q_info) (data q_info)).

(** [sep.join(l)] *)
Fixpoint join (sep : str) (l : list str) : str :=
  match l with
  | [] => []
  | x :: rest =>
    match rest with
    | [] => x
    | _ :: _ => x ++ sep ++ join sep rest
    end
  end.

(** The random source: [rnd n] is the value of the [n]-th call of
    [np.random.random()]; the number of calls made so far is threaded
    through the loops. *)
Fixpoint select_options (rnd : nat -> Q) (n : nat) (total_responses : Z)
    (pairs : list (str * Z)) : list str * nat :=
  match pairs with
  | [] => ([], n)
  | oc :: rest =>
    let probability := (inject_Z (snd oc) / inject_Z total_responses)%Q in
    let chosen := negb (Qle_bool probability (rnd n)) in
    let (selected_options, n') :=
      select_options rnd (S n) total_responses rest in
    (if chosen then fst oc :: selected_options else selected_options, n')
  end.

(** [for i in range(total_responses)]: one response per iteration. *)
Fixpoint simulate_responses (rnd : nat -> Q) (n : nat) (rows : nat)
    (total_responses : Z) (pairs : list (str * Z)) : list str * nat :=
  match rows with
  | O => ([], n)
  | S rows' =>
    let (selected_options, n1) :=
      select_options rnd n total_responses pairs in
    let (responses, n2) :=
      simulate_responses rnd n1 rows' total_responses pairs in
    (join [59%N] selected_options :: responses, n2)
  end.

(** The responses of one question before they are fitted to the table. *)
Definition question_responses (rnd : nat -> Q) (n : nat) (max_responses : Z)
    (q_info : Question) : list str * nat :=
  match options q_info, data q_info with
  | _ :: _, _ :: _ =>
    match qtype q_info with
    | single_choice | rating => (expand_responses q_info, n)
    | multiple_choice =>
      simulate_responses rnd n (Z.to_nat max_responses) max_responses
                         (combine (options q_info) (data q_info))
    | fill_in_blank => ([], n)
    end
  | _, _ => ([], n)
  end.

(** Padding with empty strings or cutting to [max_responses] entries. *)
Definition fit_responses (max_responses : nat) (responses : list str)
    : list str :=
  if length responses <? max_responses then
    responses ++ replicate (max_responses - length responses) []
  else if max_responses <? length responses then
    take max_responses responses
  else responses.

(** One iteration of [for q_text, q_info in self.questions.items()]. *)
Definition data_step (rnd : nat -> Q) (max_responses : Z)
    (acc : Dict (list str) * nat) (item : str * Question)
    : Dict (list str) * nat :=
  match qtype (snd item) with
  | fill_in_blank => acc
  | _ =>
    let (responses, n') :=
      question_responses rnd (snd acc) max_responses (snd item) in
    (dict_set (fst item)
              (fit_responses (Z.to_nat max_responses) responses) (fst acc),
     n')
  end.

Definition data_columns (rnd : nat -> Q) (questions : Survey)
    : Dict (list str) :=
  fst (fold_left (data_step rnd (max_responses_of questions)) questions
                 ([], 0)).

(** [Some data_dict] when the function returns [True] (the columns of the
    data frame), [None] when it returns [False]. *)
Definition create_data_from_parsed_questions (rnd : nat -> Q)
    (questions : Survey) : option (Dict (list str)) :=
  match questions with
  | [] => None
  | _ :: _ =>
    match data_columns rnd questions with
    | [] => None
    | data_dict => Some data_dict
    end
  end.

(** * Properties *)

Example u_marker : u "问题【】" = [38382; 39064; 12304; 12305]%N.
Proof. reflexivity. Qed.

Example py_int_examples :
  List.map py_int [u "37"; u "-5"; u "+5"; u "1_0"; u "1__0"; u "_1";
                   u "1_"; u "5 5"; u ""; u "-"; u "１２"; u "　5";
                   [28; 53]%N; u "007"]
  = [Some 37; Some (-5); Some 5; Some 10; None; None; None; None; None;
     None; Some 12; Some 5; None; Some 7]%Z.
Proof. vm_compute. reflexivity. Qed.

Example re_search_examples :
  List.map re_search_count
    [u "A: 5"; u "A: 5 (10%)"; u "A:5"; u "A: x"; u "a: b: 12: 34"; u "A: １２3 "]
  = [Some (u "5"); Some (u "5"); None; None; Some (u "12"); Some (u "１２3")].
Proof. vm_compute. reflexivity. Qed.

Example parse_demo :
  parse_md_metadata_with_data
    (u "问题1:【评分题】Satisfaction
1: 52
2: 11 (1.8%)
问题2:【填空题】Comments
37
")
  = Some [(u "Satisfaction",
           mkQuestion (u "Satisfaction") rating [u "1"; u "2"] [52; 11]%Z);
          (u "Comments", mkQuestion (u "Comments") fill_in_blank [] [37%Z])].
Proof. vm_compute. reflexivity. Qed.

(** ** Facts about the string primitives *)

Module PyStrFacts.

Lemma decimal_value_range (c : char) (d : Z) :
  decimal_value c = Some d -> (0 <= d <= 9)%Z.
Proof.
  unfold decimal_value.
  destruct (List.find _ decimal_zeros) as [z|] eqn:Hf; [|discriminate].
  intros [= <-]. apply List.find_some in Hf as [_ Hz].
  apply andb_true_iff in Hz as [H1 H2].
  apply N.leb_le in H1, H2. lia.
Qed.

Lemma isdecimal_value (c : char) :
  isdecimal c = true -> exists d, decimal_value c = Some d /\ (0 <= d <= 9)%Z.
Proof.
  unfold isdecimal. destruct (decimal_value c) as [d|] eqn:E; [|discriminate].
  intros _. exists d. split; [reflexivity|]. eapply decimal_value_range, E.
Qed.

Lemma int_space_cases (c : char) :
  int_space c = true ->
  In c [9; 10; 11; 12; 13; 32; 133; 160; 5760; 8192; 8193; 8194; 8195; 8196;
        8197; 8198; 8199; 8200; 8201; 8202; 8232; 8233; 8239; 8287; 12288]%N.
Proof.
  unfold int_space, isspace.
  repeat (rewrite ?orb_true_iff, ?andb_true_iff, ?N.leb_le, ?N.eqb_eq).
  simpl. lia.
Qed.

Lemma isdecimal_not_space (c : char) :
  isdecimal c = true -> int_space c = false.
Proof.
  intros Hd. destruct (int_space c) eqn:E; [|reflexivity].
  apply int_space_cases in E. simpl in E.
  repeat (destruct E as [<-|E]; [vm_compute in Hd; discriminate|]).
  contradiction.
Qed.

Lemma isdecimal_not_sign (c : char) :
  isdecimal c = true -> c <> 45%N /\ c <> 43%N /\ c <> 95%N.
Proof.
  intros Hd. repeat split; intros ->; vm_compute in Hd; discriminate.
Qed.

Lemma lstrip_by_head (p : char -> bool) (c : char) (s : str) :
  p c = false -> lstrip_by p (c :: s) = c :: s.
Proof. intros H. simpl. now rewrite H. Qed.

Lemma strip_by_id (p : char -> bool) (s : str) :
  Forall (fun c => p c = false) s -> strip_by p s = s.
Proof.
  intros H. unfold strip_by, rstrip_by.
  assert (Hl : forall t, Forall (fun c => p c = false) t -> lstrip_by p t = t).
  { intros [|c t] Ht; [reflexivity|]. apply lstrip_by_head.
    now apply Forall_inv in Ht. }
  rewrite (Hl s H), Hl, rev_involutive; [reflexivity|].
  now apply Forall_rev.
Qed.

Lemma digits_value_some (s : str) :
  Forall (fun c => isdecimal c = true) s ->
  forall acc, (0 <= acc)%Z ->
    exists v, digits_value acc s = Some v /\ (0 <= v)%Z.
Proof.
  induction 1 as [|c s Hc Hs IH]; intros acc Hacc; simpl.
  - eauto.
  - apply isdecimal_value in Hc as (d & -> & Hd). apply IH. lia.
Qed.

Lemma int_body_digits (s : str) :
  Forall (fun c => isdecimal c = true) s -> s <> [] ->
  forall b acc, int_body b acc s = digits_value acc s.
Proof.
  induction 1 as [|c s Hc Hs IH]; intros Hne b acc; [contradiction|].
  simpl. destruct (isdecimal_not_sign c Hc) as (_ & _ & H95).
  apply N.eqb_neq in H95. rewrite H95.
  apply isdecimal_value in Hc as (d & -> & _).
  destruct s as [|c' s']; [reflexivity|]. now apply IH.
Qed.

(** [int()] on a non-empty run of decimal digits is its value. *)
Lemma py_int_digits (s : str) :
  Forall (fun c => isdecimal c = true) s -> s <> [] ->
  exists v, py_int s = Some v /\ digits_value 0 s = Some v /\ (0 <= v)%Z.
Proof.
  intros Hs Hne. unfold py_int.
  rewrite strip_by_id
    by (eapply Forall_impl; [exact Hs|]; apply isdecimal_not_space).
  destruct s as [|c s']; [contradiction|].
  pose proof (Forall_inv Hs) as Hc.
  destruct (isdecimal_not_sign c Hc) as (H45 & H43 & _).
  apply N.eqb_neq in H45, H43. rewrite H45, H43.
  rewrite int_body_digits by (auto; discriminate).
  destruct (digits_value_some _ Hs 0%Z) as (v & E & Hv); [lia|].
  exists v. auto.
Qed.

Lemma take_digits_spec (s : str) :
  exists rest,
    s = take_digits s ++ rest
    /\ Forall (fun c => isdecimal c = true) (take_digits s)
    /\ (forall c rest', rest = c :: rest' -> isdecimal c = false).
Proof.
  induction s as [|c s (rest & E & Hd & Hr)]; simpl.
  - exists []. repeat split; [constructor|discriminate].
  - destruct (isdecimal c) eqn:Hc.
    + exists rest. repeat split; [simpl; f_equal; exact E|now constructor|exact Hr].
    + exists (c :: s). repeat split; [constructor|].
      intros c0 rest' [= <- _]. exact Hc.
Qed.

Lemma re_search_count_some (s g : str) :
  re_search_count s = Some g ->
  exists pre rest,
    s = pre ++ colon :: 32%N :: g ++ rest
    /\ g <> [] /\ Forall (fun c => isdecimal c = true) g
    /\ (forall c rest', rest = c :: rest' -> isdecimal c = false)
    /\ (forall a, count_at a s -> length pre <= length a).
Proof.
  revert g. induction s as [|c s IH]; intros g; [discriminate|].
  cbn [re_search_count].
  destruct s as [|sp [|d t]]; [discriminate|discriminate|].
  destruct ((c =? 58)%N && (sp =? 32)%N && isdecimal d) eqn:Hc.
  - intros [= <-].
    apply andb_true_iff in Hc as [Hc Hd]. apply andb_true_iff in Hc as [Hc Hsp].
    apply N.eqb_eq in Hc, Hsp. subst c sp.
    destruct (take_digits_spec (d :: t)) as (rest & E & Hall & Hrest).
    exists [], rest. cbn [List.tl].
    repeat split; [|idtac|exact Hall|exact Hrest|simpl; lia].
    + change ([] ++ ?x) with x. do 2 f_equal. exact E.
    + simpl. rewrite Hd. discriminate.
  - intros Hs. destruct (IH g Hs) as (pre & rest & E & Hne & Hall & Hrest & Hleft).
    exists (c :: pre), rest.
    repeat split; [simpl; f_equal; exact E|exact Hne|exact Hall|exact Hrest|].
    intros a (d' & b & Ea & Hd').
    destruct a as [|c' a].
    + simpl in Ea. injection Ea as -> -> -> _.
      simpl in Hc. rewrite Hd' in Hc. discriminate.
    + simpl in Ea. injection Ea as -> Ea.
      specialize (Hleft a ltac:(exists d', b; auto)). simpl. lia.
Qed.

Lemma re_search_count_none (s : str) :
  re_search_count s = None -> forall a, ~ count_at a s.
Proof.
  induction s as [|c s IH]; intros Hs a (d & b & E & Hd).
  - destruct a; discriminate.
  - cbn [re_search_count] in Hs.
    destruct a as [|c' a].
    + simpl in E. injection E as -> ->. simpl in Hs.
      rewrite Hd in Hs. discriminate.
    + simpl in E. injection E as -> E.
      assert (Hs' : re_search_count s = None).
      { destruct s as [|sp [|d0 t]].
        - reflexivity.
        - reflexivity.
        - destruct (_ && _ && _) in Hs; [discriminate|exact Hs]. }
      apply (IH Hs' a). exists d, b. auto.
Qed.

Lemma contains_char (c : char) (s : str) :
  contains [c] s = true <-> c ∈ s.
Proof.
  induction s as [|x s IH]; simpl.
  - split; [discriminate|]. intros H. inversion H.
  - rewrite orb_true_iff, IH, andb_true_r, N.eqb_eq, elem_of_cons.
    intuition congruence.
Qed.

Lemma split_nonempty (c : char) (s : str) : split c s <> [].
Proof.
  destruct s as [|x s]; simpl; [discriminate|].
  destruct (x =? c)%N; [discriminate|]. destruct (split c s); discriminate.
Qed.

(** [split(c)[0]] is the text before the first [c]. *)
Lemma before_first_spec (c : char) (s : str) :
  c ∈ s ->
  exists tail, s = before_first c s ++ c :: tail /\ c ∉ before_first c s.
Proof.
  unfold before_first. induction s as [|x s IH]; intros Hin.
  - inversion Hin.
  - simpl. destruct (x =? c)%N eqn:E.
    + apply N.eqb_eq in E as ->. exists s. split; [reflexivity|].
      intros H; inversion H.
    + apply N.eqb_neq in E. apply elem_of_cons in Hin as [->|Hin];
        [contradiction|].
      destruct (IH Hin) as (tail & Es & Hnot).
      pose proof (split_nonempty c s) as Hne.
      destruct (split c s) as [|w ws]; [contradiction|].
      exists tail. split; [simpl; f_equal; exact Es|].
      rewrite elem_of_cons. intros [->|H]; [contradiction|now apply Hnot].
Qed.

End PyStrFacts.

(** ** The loops and the line-at-a-time scan agree; termination *)

Section Loops.

Variable lines : list str.

(** The nested loop, from cursor [i] with enough fuel: it exits, at a cursor
    that did not move backwards, and the scan continues from there in the
    outer loop. *)
Lemma data_while_fold (fuel : nat) :
  forall ty txt i cq qs,
    length lines - i < fuel ->
    exists i' cq',
      data_while fuel lines ty i cq = Some (i', cq')
      /\ i <= i' /\ i' <= Nat.max i (length lines)
      /\ finish (fold_left line_step (drop i lines) (Inner ty txt cq qs))
         = finish (fold_left line_step (drop i' lines)
                             (Outer (Some (txt, cq')) qs)).
Proof.
  induction fuel as [|fuel IH]; intros ty txt i cq qs Hf; [lia|].
  simpl. destruct (lines !! i) as [l|] eqn:Hl.
  - pose proof (lookup_lt_Some _ _ _ Hl) as Hlt.
    rewrite (drop_S _ _ _ Hl). simpl.
    destruct (decide (strip l = [])) as [Hb|Hb].
    + destruct (IH ty txt (S i) cq qs) as (i' & cq' & E & Hle & Hmax & Hfin);
        [lia|].
      exists i', cq'. repeat split; [exact E|lia|lia|exact Hfin].
    + destruct (is_question_header (strip l)) eqn:Hh.
      * exists i, cq. repeat split; [lia|lia|].
        rewrite (drop_S _ _ _ Hl). reflexivity.
      * destruct (decide (ty = fill_in_blank)) as [->|Hty].
        { exists (S i), (fill_in_blank_line (strip l) cq).
          repeat split; [lia|lia]. }
        destruct (IH ty txt (S i) (option_line (strip l) cq) qs)
          as (i' & cq' & E & Hle & Hmax & Hfin); [lia|].
        exists i', cq'.
        destruct ty; try contradiction;
          (repeat split; [exact E|lia|lia|exact Hfin]).
  - exists i, cq. repeat split; [lia|lia|].
    apply lookup_ge_None in Hl. rewrite drop_ge by lia. reflexivity.
Qed.

Lemma question_while_fold (fuel : nat) :
  forall i cur qs,
    length lines - i < fuel ->
    question_while fuel lines i cur qs
    = Some (finish (fold_left line_step (drop i lines) (Outer cur qs))).
Proof.
  induction fuel as [|fuel IH]; intros i cur qs Hf; [lia|].
  simpl. destruct (lines !! i) as [l|] eqn:Hl.
  - pose proof (lookup_lt_Some _ _ _ Hl) as Hlt.
    rewrite (drop_S _ _ _ Hl). simpl. unfold outer_step.
    destruct (is_question_header (strip l)) eqn:Hh.
    + destruct (lookup_question_type (strip l)) as [ty|] eqn:Hty.
      * destruct (data_while_fold fuel ty (extract_question_text (strip l))
                    (S i)
                    (mkQuestion (extract_question_text (strip l)) ty [] [])
                    (save cur qs))
          as (i' & cq' & E & Hle & Hmax & Hfin); [lia|].
        rewrite E, Hfin. apply IH. lia.
      * apply IH. lia.
    + apply IH. lia.
  - apply lookup_ge_None in Hl. rewrite drop_ge by lia. reflexivity.
Qed.

End Loops.

Lemma parse_lines_scan (lines : list str) :
  parse_lines lines = Some (scan_lines lines).
Proof.
  unfold parse_lines, scan_lines.
  rewrite question_while_fold by (simpl; lia). reflexivity.
Qed.

(** C9. Parsing terminates: for every document, the outer loop started at
    cursor 0 returns a survey as soon as the fuel exceeds the number of
    lines, and the same survey for any larger fuel; the nested loop started
    at any cursor exits at a cursor that is not smaller and not beyond the
    end of the input, again within a number of iterations bounded by the
    number of lines left. *)
Theorem parse_terminates (md_content : str) :
  let lines := split newline md_content in
  (exists questions,
      parse_md_metadata_with_data md_content = Some questions
      /\ forall extra,
          question_while (S (length lines) + extra) lines 0 None []
          = Some questions)
  /\ (forall ty i cq extra,
        exists i' cq',
          data_while (S (length lines - i) + extra) lines ty i cq
          = Some (i', cq')
          /\ i <= i' /\ i' <= Nat.max i (length lines)).
Proof.
  intros lines. split.
  - exists (scan_lines lines). split.
    + apply parse_lines_scan.
    + intros extra. rewrite question_while_fold by lia. reflexivity.
  - intros ty i cq extra.
    destruct (data_while_fold lines (S (length lines - i) + extra) ty [] i cq [])
      as (i' & cq' & E & Hle & Hmax & _); [lia|].
    exists i', cq'. auto.
Qed.

(** ** Invariants of the scan *)

Lemma dict_set_elem {V : Type} (k : str) (v : V) (d : Dict V) k' v' :
  (k', v') ∈ dict_set k v d -> (k', v') ∈ d \/ (k' = k /\ v' = v).
Proof.
  induction d as [|[k0 v0] d IH]; simpl.
  - intros H. apply list_elem_of_singleton in H as [= -> ->]. auto.
  - destruct (decide (k0 = k)) as [->|Hne]; intros H;
      apply elem_of_cons in H as [[= -> ->]|H].
    + auto.
    + left. now apply elem_of_cons; right.
    + left. apply elem_of_cons; now left.
    + destruct (IH H) as [H'|H']; [left; apply elem_of_cons; now right|auto].
Qed.

Lemma dict_set_idem {V : Type} (k : str) (v : V) (d : Dict V) :
  dict_set k v (dict_set k v d) = dict_set k v d.
Proof.
  induction d as [|[k0 v0] d IH]; simpl.
  - now rewrite decide_True.
  - destruct (decide (k0 = k)) as [->|Hne]; simpl.
    + now rewrite decide_True.
    + rewrite decide_False by assumption. now rewrite IH.
Qed.

Lemma save_idem cur qs : save cur (save cur qs) = save cur qs.
Proof. destruct cur as [[k q]|]; [apply dict_set_idem|reflexivity]. Qed.

Lemma header_nonempty (s : str) : is_question_header s = true -> s <> [].
Proof. intros H ->. discriminate. Qed.

Lemma option_line_fields (d : str) (q : Question) :
  text (option_line d q) = text q /\ qtype (option_line d q) = qtype q.
Proof.
  unfold option_line. destruct (contains _ d); [|auto].
  destruct (re_search_count d) as [g|]; [|auto].
  destruct (py_int g); auto.
Qed.

(** What the branch of the choice and rating types does with a data line:
    it appends the option and the count of the leftmost [': <digits>'], or
    leaves the question as it is when the line has none. *)
Lemma option_line_spec (d : str) (q : Question) :
  (exists label tail pre digits rest count,
      d = label ++ colon :: tail /\ (colon ∉ label)
      /\ d = pre ++ colon :: 32%N :: digits ++ rest
      /\ digits <> [] /\ Forall (fun c => isdecimal c = true) digits
      /\ (forall c rest', rest = c :: rest' -> isdecimal c = false)
      /\ (forall a, count_at a d -> length pre <= length a)
      /\ digits_value 0 digits = Some count /\ (0 <= count)%Z
      /\ options (option_line d q) = options q ++ [strip label]
      /\ data (option_line d q) = data q ++ [count])
  \/ ((forall a, ~ count_at a d) /\ option_line d q = q).
Proof.
  unfold option_line. destruct (contains [colon] d) eqn:Hc.
  - destruct (re_search_count d) as [g|] eqn:Hg.
    + left. apply PyStrFacts.contains_char in Hc.
      destruct (PyStrFacts.before_first_spec _ _ Hc) as (tail & Ed & Hnot).
      destruct (PyStrFacts.re_search_count_some _ _ Hg)
        as (pre & rest & E & Hne & Hall & Hrest & Hleft).
      destruct (PyStrFacts.py_int_digits _ Hall Hne) as (v & Hv & Hdv & Hpos).
      rewrite Hv. simpl.
      exists (before_first colon d), tail, pre, g, rest, v.
      repeat split; auto.
    + right. split; [|reflexivity].
      now apply PyStrFacts.re_search_count_none.
  - right. split; [|reflexivity].
    intros a (dg & b & E & _).
    assert (colon ∈ d) as Hin.
    { rewrite E. apply elem_of_app. right. apply elem_of_cons. now left. }
    apply PyStrFacts.contains_char in Hin. congruence.
Qed.

Lemma blank_between_app (pre ext : list str) (h i : nat) :
  i <= length pre -> blank_between pre h i ->
  blank_between (pre ++ ext) h i.
Proof.
  intros Hi Hb j l Hhj Hji Hl. apply (Hb j l Hhj Hji).
  rewrite lookup_app_l in Hl by lia. exact Hl.
Qed.

Lemma block_header_app (pre ext : list str) (h : nat) (q : Question) :
  block_header pre h q -> block_header (pre ++ ext) h q.
Proof.
  intros (hl & Hl & H). exists hl. split; [|exact H].
  now apply lookup_app_l_Some.
Qed.

Lemma fill_in_blank_closed_app (pre ext : list str) (q : Question) :
  fill_in_blank_closed pre q -> fill_in_blank_closed (pre ++ ext) q.
Proof.
  intros (h & Hh & Hd). exists h. split; [now apply block_header_app|].
  destruct Hd as [(i & l & Hhi & Hl & Hb & Hrest)|(Hd & i & l & Hhi & Hl & Hb & Hq)].
  - left. exists i, l. split; [exact Hhi|].
    split; [now apply lookup_app_l_Some|].
    split; [|exact Hrest]. apply blank_between_app; [|exact Hb].
    apply lookup_lt_Some in Hl. lia.
  - right. split; [exact Hd|]. exists i, l. split; [exact Hhi|].
    split; [now apply lookup_app_l_Some|].
    split; [|exact Hq]. apply blank_between_app; [|exact Hb].
    apply lookup_lt_Some in Hl. lia.
Qed.

Lemma stored_ok_app (pre ext : list str) (k : str) (q : Question) :
  stored_ok pre k q -> stored_ok (pre ++ ext) k q.
Proof.
  intros [Hk Hs]. split; [exact Hk|].
  destruct (qtype q); try exact Hs. now apply fill_in_blank_closed_app.
Qed.

Lemma save_ok (pre : list str) cur qs :
  (forall k q, cur = Some (k, q) -> stored_ok pre k q) ->
  (forall k q, (k, q) ∈ qs -> stored_ok pre k q) ->
  forall k q, (k, q) ∈ save cur qs -> stored_ok pre k q.
Proof.
  intros Hc Hq k q. destruct cur as [[k0 q0]|]; simpl; [|apply Hq].
  intros H. apply dict_set_elem in H as [H|[-> ->]]; [now apply Hq|].
  now apply Hc.
Qed.

Lemma option_line_parallel (d : str) (q : Question) :
  parallel_counts q -> parallel_counts (option_line d q).
Proof.
  intros [Hl Hf]. unfold parallel_counts.
  destruct (option_line_spec d q)
    as [(label & tail & pre & g & rest & v & _ & _ & _ & _ & _ & _ & _ & _
         & Hv & Eo & Ed)|[_ ->]]; [|now split].
  rewrite Eo, Ed, !length_app. simpl. split; [lia|].
  apply Forall_app. split; [exact Hf|now repeat constructor].
Qed.

(** The outer loop reads line [l], the one after the lines [pre]. *)
Lemma outer_step_ok (pre : list str) cur qs l :
  (forall k q, cur = Some (k, q) -> stored_ok (pre ++ [l]) k q) ->
  (forall k q, (k, q) ∈ qs -> stored_ok (pre ++ [l]) k q) ->
  state_ok (pre ++ [l]) (outer_step cur qs l).
Proof.
  intros Hc Hq. unfold outer_step.
  destruct (is_question_header (strip l)) eqn:Hh; [|now split].
  destruct (lookup_question_type (strip l)) as [ty|] eqn:Hty.
  - simpl. split; [reflexivity|]. split; [reflexivity|].
    split; [|now apply save_ok].
    assert (Hpar : parallel_counts
                     (mkQuestion (extract_question_text (strip l)) ty [] []))
      by (split; [reflexivity|constructor]).
    destruct ty; try exact Hpar.
    exists (length pre). split.
    + exists l. split; [apply list_lookup_middle; reflexivity|]. auto.
    + split; [reflexivity|]. intros j l' Hj Hj' _.
      rewrite length_app in Hj'. simpl in Hj'. lia.
  - split; [exact Hc|now apply save_ok].
Qed.

Lemma line_step_ok (pre : list str) st l :
  state_ok pre st -> state_ok (pre ++ [l]) (line_step st l).
Proof.
  destruct st as [cur qs|ty txt cq qs].
  - intros [Hc Hq]. apply outer_step_ok.
    + intros k q E. apply stored_ok_app. now apply Hc.
    + intros k q E. apply stored_ok_app. now apply Hq.
  - intros (Hty & Hk & Hs & Hq). simpl.
    assert (Hq' : forall k q, (k, q) ∈ qs -> stored_ok (pre ++ [l]) k q).
    { intros k q E. apply stored_ok_app. now apply Hq. }
    assert (Hlast : (pre ++ [l]) !! length pre = Some l)
      by (apply list_lookup_middle; reflexivity).
    destruct (decide (strip l = [])) as [Hb|Hb].
    + (* a blank line *)
      split; [exact Hty|]. split; [exact Hk|]. split; [|exact Hq'].
      destruct ty; try exact Hs.
      destruct Hs as (h & Hh & Hd & Hbl). exists h.
      split; [now apply block_header_app|]. split; [exact Hd|].
      intros j l' Hhj Hj Hl'. rewrite length_app in Hj. simpl in Hj.
      destruct (decide (j = length pre)) as [->|Hne].
      * rewrite Hlast in Hl'. now injection Hl' as <-.
      * apply (Hbl j l' Hhj); [lia|].
        rewrite lookup_app_l in Hl' by lia. exact Hl'.
    + destruct (is_question_header (strip l)) eqn:Hh.
      * (* the next question line *)
        apply outer_step_ok; [|exact Hq'].
        intros k q [= <- <-]. split; [exact Hk|]. rewrite Hty.
        destruct ty; try exact Hs.
        destruct Hs as (h & Hhd & Hd & Hbl). exists h.
        split; [now apply block_header_app|]. right. split; [exact Hd|].
        assert (h < length pre).
        { destruct Hhd as (hl & Hl & _). now apply lookup_lt_Some in Hl. }
        exists (length pre), l. split; [assumption|]. split; [exact Hlast|].
        split; [|exact Hh]. now apply blank_between_app.
      * destruct (decide (ty = fill_in_blank)) as [->|Hne].
        -- (* the data line of a fill-in-blank block *)
           split; [|exact Hq']. intros k q [= <- <-].
           split; [exact Hk|]. simpl. rewrite Hty.
           destruct Hs as (h & Hhd & Hd & Hbl). exists h. split.
           ++ destruct Hhd as (hl & Hl & H1 & H2 & H3 & H4).
              exists hl. split; [now apply lookup_app_l_Some|]. auto.
           ++ left.
              assert (h < length pre).
              { destruct Hhd as (hl & Hl & _).
                now apply lookup_lt_Some in Hl. }
              exists (length pre), l. split; [assumption|].
              split; [exact Hlast|].
              split; [now apply blank_between_app|]. auto.
        -- (* a data line of another block *)
           assert (state_ok (pre ++ [l])
                     (Inner ty txt (option_line (strip l) cq) qs)) as Hok.
           { destruct (option_line_fields (strip l) cq) as [Et Eq].
             split; [congruence|]. split; [congruence|].
             split; [|exact Hq'].
             destruct ty; try contradiction;
               now apply option_line_parallel. }
           destruct ty; try contradiction; exact Hok.
Qed.

Lemma fold_ok (rest : list str) :
  forall pre st,
    state_ok pre st -> state_ok (pre ++ rest) (fold_left line_step rest st).
Proof.
  induction rest as [|l rest IH]; intros pre st Hst.
  - now rewrite app_nil_r.
  - simpl. replace (pre ++ l :: rest) with ((pre ++ [l]) ++ rest)
      by (now rewrite <- app_assoc).
    apply IH. now apply line_step_ok.
Qed.

Lemma stored_ok_shape (lines : list str) (k : str) (q : Question) :
  stored_ok lines k q -> k = text q /\ question_shape lines q.
Proof.
  intros [Hk Hs]. split; [exact Hk|]. unfold question_shape.
  destruct (qtype q); try exact Hs.
  destruct Hs as (h & Hh & Hd). exists h. split; [exact Hh|]. tauto.
Qed.

Lemma scan_lines_ok (lines : list str) k q :
  (k, q) ∈ scan_lines lines -> k = text q /\ question_shape lines q.
Proof.
  unfold scan_lines.
  assert (state_ok lines (fold_left line_step lines (Outer None []))) as Hok.
  { apply (fold_ok lines [] (Outer None [])). split; [discriminate|].
    intros k' q' H. inversion H. }
  destruct (fold_left line_step lines (Outer None [])) as [cur qs|ty txt cq qs];
    simpl in *.
  - destruct Hok as [Hc Hq]. intros H.
    apply stored_ok_shape. now apply (save_ok lines cur qs Hc Hq).
  - destruct Hok as (Hty & Hk & Hs & Hq). intros H.
    apply dict_set_elem in H as [H|[-> ->]];
      [apply stored_ok_shape; now apply Hq|].
    split; [exact Hk|]. unfold question_shape. rewrite Hty.
    destruct ty; try exact Hs.
    destruct Hs as (h & Hh & Hd). exists h. split; [exact Hh|]. tauto.
Qed.

(** C1 (amended). Every question in the survey returned by the parser has the
    shape of the data model: with a choice or rating type, as many options as
    counts and no negative count; with the fill-in-blank type, no option and
    either the single count read by [int()] from the one data line of its
    block, the first line after its question line that is not blank (0 when
    [int()] fails, and the sign is not constrained), or no count when the
    block has no data line: a question line or the end comes first. *)
Theorem parse_question_shape (md_content : str) (questions : Survey) :
  parse_md_metadata_with_data md_content = Some questions ->
  forall k q, (k, q) ∈ questions ->
    question_shape (split newline md_content) q.
Proof.
  unfold parse_md_metadata_with_data. rewrite parse_lines_scan.
  intros [= <-] k q H. now apply scan_lines_ok in H.
Qed.

Lemma parse_question_shape_witness :
  question_shape
    (split newline (u "问题1:【评分题】S
1: 52
问题2:【填空题】C
37"))
    (mkQuestion (u "C") fill_in_blank [] [37%Z]).
Proof.
  eapply (parse_question_shape _ _) with (k := u "C").
  - vm_compute. reflexivity.
  - apply elem_of_cons. right. apply elem_of_cons. left. reflexivity.
Defined.

(** C1 as stated fails: the count of a fill-in-blank question is whatever
    [int()] reads, and it reads a negative number from a line such as -5. *)
Lemma parse_negative_count :
  parse_md_metadata_with_data (u "问题1:【填空题】Q
-5")
  = Some [(u "Q", mkQuestion (u "Q") fill_in_blank [] [(-5)%Z])]
  /\ ~ Forall (fun count => (0 <= count)%Z)
        (data (mkQuestion (u "Q") fill_in_blank [] [(-5)%Z])).
Proof.
  split; [vm_compute; reflexivity|].
  intros H. apply Forall_inv in H. lia.
Qed.

Lemma first_colon_unique (label label' tail tail' : str) :
  label ++ colon :: tail = label' ++ colon :: tail' ->
  colon ∉ label -> colon ∉ label' -> label = label'.
Proof.
  revert label'. induction label as [|x label IH]; intros [|y label'] E H H'.
  - reflexivity.
  - simpl in E. injection E as <- _. exfalso. apply H'.
    apply elem_of_cons. now left.
  - simpl in E. injection E as -> _. exfalso. apply H.
    apply elem_of_cons. now left.
  - simpl in E. injection E as -> E. f_equal.
    apply (IH label' E); intros Hin; [apply H|apply H'];
      apply elem_of_cons; now right.
Qed.

Lemma digit_run_unique (digits digits' rest rest' : str) :
  digits ++ rest = digits' ++ rest' ->
  Forall (fun c => isdecimal c = true) digits ->
  Forall (fun c => isdecimal c = true) digits' ->
  (forall c r, rest = c :: r -> isdecimal c = false) ->
  (forall c r, rest' = c :: r -> isdecimal c = false) ->
  digits = digits'.
Proof.
  revert digits'. induction digits as [|x digits IH];
    intros [|y digits'] E H H' Hr Hr'.
  - reflexivity.
  - simpl in E. apply Forall_inv in H'. rewrite (Hr y _ E) in H'.
    discriminate.
  - simpl in E. apply Forall_inv in H. symmetry in E.
    rewrite (Hr' x _ E) in H. discriminate.
  - simpl in E. injection E as -> E. f_equal.
    apply Forall_inv_tail in H, H'. now apply (IH digits' E).
Qed.

(** A line records one thing only. *)
Lemma line_records_unique (l : str) (r r' : option (str * Z)) :
  line_records l r -> line_records l r' -> r = r'.
Proof.
  assert (Hsome : forall o c, line_records l (Some (o, c)) ->
                              exists a, count_at a (strip l)).
  { intros o c (label & tail & pre & g & rest & _ & _ & _ & E & Hne & Hall
                & _). exists pre. destruct g as [|d g]; [contradiction|].
    exists d, (g ++ rest). split; [exact E|]. now apply Forall_inv in Hall. }
  destruct r as [[o c]|], r' as [[o' c']|]; intros H H'.
  - destruct H as (label & tail & pre & g & rest & E1 & Hn & -> & E2 & Hne
                   & Hall & Hrest & Hleft & Hv & _).
    destruct H' as (label' & tail' & pre' & g' & rest' & E1' & Hn' & -> & E2'
                    & Hne' & Hall' & Hrest' & Hleft' & Hv' & _).
    assert (label = label') as <-.
    { apply (first_colon_unique label label' tail tail');
        [now rewrite <- E1, <- E1'|exact Hn|exact Hn']. }
    assert (Hat : forall p g0 rest0,
               strip l = p ++ colon :: 32%N :: g0 ++ rest0 -> g0 <> [] ->
               Forall (fun c => isdecimal c = true) g0 ->
               count_at p (strip l)).
    { intros p [|d g0] rest0 E Hg Hd; [contradiction|].
      exists d, (g0 ++ rest0). split; [exact E|]. now apply Forall_inv in Hd. }
    assert (Hlen : length pre = length pre').
    { pose proof (Hleft pre' (Hat _ _ _ E2' Hne' Hall')).
      pose proof (Hleft' pre (Hat _ _ _ E2 Hne Hall)). lia. }
    rewrite E2 in E2'. apply app_inj_1 in E2' as [<- E3]; [|exact Hlen].
    injection E3 as E3.
    assert (g = g') as <-
      by (apply (digit_run_unique g g' rest rest'); assumption).
    congruence.
  - destruct (Hsome _ _ H) as [a Ha]. now apply H' in Ha.
  - destruct (Hsome _ _ H') as [a Ha]. now apply H in Ha.
  - reflexivity.
Qed.





(** ** Question lines with an unrecognized type tag *)

Lemma outer_saved (post : list str) :
  forall cur qs,
    finish (fold_left line_step post (Outer cur (save cur qs)))
    = finish (fold_left line_step post (Outer cur qs)).
Proof.
  induction post as [|h t IH]; intros cur qs; simpl.
  - apply save_idem.
  - unfold outer_step. destruct (is_question_header (strip h)); [|apply IH].
    now rewrite save_idem.
Qed.

Lemma unrecognized_step (st : scan_state) (l : str) :
  is_question_header (strip l) = true ->
  lookup_question_type (strip l) = None ->
  line_step st l
  = match st with
    | Outer cur qs => Outer cur (save cur qs)
    | Inner _ txt cq qs =>
      Outer (Some (txt, cq)) (save (Some (txt, cq)) qs)
    end.
Proof.
  intros Hh Hty. pose proof (header_nonempty _ Hh) as Hne.
  destruct st as [cur qs|ty txt cq qs]; simpl.
  - unfold outer_step. now rewrite Hh, Hty.
  - rewrite decide_False by exact Hne. rewrite Hh.
    unfold outer_step. now rewrite Hh, Hty.
Qed.

(** C7 (amended). A question line whose tag is none of the four type labels
    creates no question and only moves the cursor by one, but it ends the
    block being read: the nested loop stops at it. Inserting such a line
    leaves the parse result unchanged when no block is being read at that
    point, when the line comes last, or when the next line is a question
    line itself. *)
Theorem unrecognized_header_insertion (pre : list str) (l : str)
    (post : list str) :
  is_question_header (strip l) = true ->
  lookup_question_type (strip l) = None ->
  (forall ty txt cq qs fuel i lines,
      lines !! i = Some l ->
      data_while (S fuel) lines ty i cq = Some (i, cq)
      /\ line_step (Inner ty txt cq qs) l
         = Outer (Some (txt, cq)) (save (Some (txt, cq)) qs))
  /\ ((exists cur qs, fold_left line_step pre (Outer None []) = Outer cur qs)
      \/ post = []
      \/ (exists h t, post = h :: t /\ is_question_header (strip h) = true) ->
      parse_lines (pre ++ l :: post) = parse_lines (pre ++ post)).
Proof.
  intros Hh Hty. pose proof (header_nonempty _ Hh) as Hne. split.
  - intros ty txt cq qs fuel i lines Hl. split.
    + simpl. rewrite Hl. rewrite decide_False by exact Hne. now rewrite Hh.
    + now rewrite unrecognized_step.
  - intros Hpos. rewrite !parse_lines_scan. f_equal. unfold scan_lines.
    rewrite !fold_left_app. simpl.
    rewrite (unrecognized_step _ l Hh Hty).
    destruct (fold_left line_step pre (Outer None [])) as [cur qs|ty txt cq qs].
    + apply outer_saved.
    + rewrite outer_saved.
      destruct Hpos as [(cur & qs' & E)|[->|(h & t & -> & Hhh)]].
      * discriminate.
      * reflexivity.
      * simpl. rewrite decide_False by (now apply header_nonempty).
        now rewrite Hhh.
Qed.

Lemma unrecognized_header_insertion_witness :
  parse_lines ([u "问题1:【单选题】Q"; u "A: 1"] ++ u "问题2:【判断题】X" :: [])
  = parse_lines ([u "问题1:【单选题】Q"; u "A: 1"] ++ []).
Proof.
  apply (unrecognized_header_insertion
           [u "问题1:【单选题】Q"; u "A: 1"] (u "问题2:【判断题】X") []).
  - vm_compute. reflexivity.
  - vm_compute. reflexivity.
  - right. left. reflexivity.
Defined.

(** C7 as stated fails: inserted between the data lines of a block, the line
    ends the block and the data lines after it are lost. *)
Lemma unrecognized_header_ends_block :
  let pre := [u "问题1:【单选题】Q"; u "A: 1"] in
  let l := u "问题2:【判断题】X" in
  let post := [u "B: 2"] in
  is_question_header (strip l) = true
  /\ lookup_question_type (strip l) = None
  /\ parse_lines (pre ++ l :: post)
     = Some [(u "Q", mkQuestion (u "Q") single_choice [u "A"] [1%Z])]
  /\ parse_lines (pre ++ post)
     = Some [(u "Q", mkQuestion (u "Q") single_choice
                                [u "A"; u "B"] [1; 2]%Z)]
  /\ parse_lines (pre ++ l :: post) <> parse_lines (pre ++ post).
Proof.
  repeat split; try (vm_compute; reflexivity).
  vm_compute. discriminate.
Qed.

(** ** The summary *)

Lemma fold_add_shift (l : list Z) (a : Z) :
  fold_left Z.add l a = (a + fold_left Z.add l 0)%Z.
Proof.
  revert a. induction l as [|x l IH]; intros a; simpl; [lia|].
  rewrite (IH (a + x)%Z), (IH (0 + x)%Z). lia.
Qed.

Lemma sum_list_cons (x : Z) (l : list Z) :
  sum_list (x :: l) = (x + sum_list l)%Z.
Proof. unfold sum_list. simpl. rewrite fold_add_shift. lia. Qed.

Lemma sum_list_nonneg (l : list Z) :
  Forall (fun c => (0 <= c)%Z) l -> (0 <= sum_list l)%Z.
Proof.
  induction 1 as [|x l Hx Hl IH]; [unfold sum_list; simpl; lia|].
  rewrite sum_list_cons. lia.
Qed.

Lemma summary_step_total (acc : Summary) (q : Question) :
  (0 <= total_responses acc)%Z ->
  total_responses (summary_step acc q)
  = match candidate q with
    | Some c => Z.max (total_responses acc) c
    | None => total_responses acc
    end.
Proof.
  intros Hacc. unfold summary_step, candidate.
  destruct (qtype q); simpl; destruct (data q) as [|d0 ds]; simpl;
    try reflexivity; unfold sum_list; simpl; lia.
Qed.

Lemma summary_step_counts (acc : Summary) (q : Question) :
  skipped_questions (summary_step acc q)
  = skipped_questions acc + (if is_fill_in_blank (qtype q) then 1 else 0)
  /\ analyzed_questions (summary_step acc q)
     = analyzed_questions acc
       + (if is_fill_in_blank (qtype q) then 0 else 1).
Proof.
  unfold summary_step, is_fill_in_blank.
  destruct (qtype q); simpl; split; lia.
Qed.

Lemma fold_max_spec (l : list Z) :
  forall a,
    (a <= fold_left Z.max l a)%Z
    /\ (forall c, c ∈ l -> (c <= fold_left Z.max l a)%Z)
    /\ (fold_left Z.max l a = a \/ fold_left Z.max l a ∈ l).
Proof.
  induction l as [|x l IH]; intros a; simpl.
  - split; [lia|]. split; [|now left]. intros c H. inversion H.
  - destruct (IH (Z.max a x)) as (Hge & Hub & Hmem).
    split; [lia|]. split.
    + intros c Hc. apply elem_of_cons in Hc as [->|Hc]; [lia|now apply Hub].
    + destruct Hmem as [Hm|Hm].
      * rewrite Hm. destruct (Z.max_spec a x) as [[_ ->]|[_ ->]];
          [right; apply elem_of_cons; now left|now left].
      * right. apply elem_of_cons. now right.
Qed.

Lemma summary_fold (questions : Survey) :
  forall acc,
    (0 <= total_responses acc)%Z ->
    let s := fold_left summary_step (List.map snd questions) acc in
    skipped_questions s
    = skipped_questions acc + count_type is_fill_in_blank questions
    /\ analyzed_questions s
       = analyzed_questions acc
         + count_type (fun ty => negb (is_fill_in_blank ty)) questions
    /\ total_responses s
       = fold_left Z.max (candidates questions) (total_responses acc).
Proof.
  unfold count_type, candidates.
  induction questions as [|[k q] qs IH]; intros acc Hacc.
  - simpl. repeat split; lia.
  - pose proof (summary_step_total acc q Hacc) as Ht.
    destruct (summary_step_counts acc q) as [Hs Ha].
    assert (Hacc' : (0 <= total_responses (summary_step acc q))%Z).
    { rewrite Ht. destruct (candidate q); lia. }
    destruct (IH (summary_step acc q) Hacc') as (IHs & IHa & IHt).
    cbn [List.map fold_left snd List.filter omap list_omap].
    rewrite IHs, IHa, IHt, Hs, Ha, Ht.
    destruct (is_fill_in_blank (qtype q)); simpl;
      (split; [lia|split; [lia|]]);
      destruct (candidate q); reflexivity.
Qed.

(** C3 (amended). For every survey with at least one question the summary
    exists; it counts the fill-in-blank questions as skipped and all others
    as analyzed, and its total is the largest of 0 and the candidates: it is
    not negative, no candidate exceeds it, and it is 0 or one of them. *)
Theorem summary_report (questions : Survey) :
  questions <> [] ->
  exists s,
    generate_summary_report questions = Some s
    /\ skipped_questions s = count_type is_fill_in_blank questions
    /\ analyzed_questions s
       = count_type (fun ty => negb (is_fill_in_blank ty)) questions
    /\ (0 <= total_responses s)%Z
    /\ (forall c, c ∈ candidates questions -> (c <= total_responses s)%Z)
    /\ (total_responses s = 0%Z \/ total_responses s ∈ candidates questions).
Proof.
  intros Hne.
  destruct (summary_fold questions (mkSummary 0 0 0)) as (Hs & Ha & Ht);
    [simpl; lia|].
  destruct (fold_max_spec (candidates questions) 0%Z) as (Hge & Hub & Hmem).
  exists (fold_left summary_step (List.map snd questions) (mkSummary 0 0 0)).
  split; [destruct questions; [contradiction|reflexivity]|].
  rewrite Hs, Ha, Ht. simpl. auto.
Qed.

Lemma summary_report_witness :
  exists s,
    generate_summary_report
      [(u "S", mkQuestion (u "S") rating [u "1"; u "2"] [52; 11]%Z);
       (u "C", mkQuestion (u "C") fill_in_blank [] [37%Z])] = Some s
    /\ skipped_questions s = 1 /\ analyzed_questions s = 1
    /\ total_responses s = 63%Z.
Proof.
  destruct (summary_report
      [(u "S", mkQuestion (u "S") rating [u "1"; u "2"] [52; 11]%Z);
       (u "C", mkQuestion (u "C") fill_in_blank [] [37%Z])])
    as (s & E & Hs & Ha & _); [discriminate|].
  exists s. split; [exact E|].
  vm_compute in E. injection E as E. subst s. repeat split.
Defined.

(** C3 as stated fails on the empty survey: the guard returns no summary at
    all, so there is no total that could be 0. *)
Lemma summary_report_empty :
  generate_summary_report [] = None
  /\ ~ (exists s, generate_summary_report [] = Some s
                  /\ total_responses s = 0%Z).
Proof. split; [reflexivity|]. intros (s & E & _). discriminate. Qed.

(** The total starts from 0: a single negative candidate is not reported. *)
Example summary_negative_candidate :
  generate_summary_report
    [(u "Q", mkQuestion (u "Q") fill_in_blank [] [(-5)%Z])]
  = Some (mkSummary 0 0 1).
Proof. reflexivity. Qed.

(** ** The rating average *)

Lemma rating_fold (pairs : list (str * Z)) :
  forall ts tc,
    let inc := omap (fun oc => match py_int (fst oc) with
                               | Some score => Some (score, snd oc)
                               | None => None
                               end) pairs in
    fold_left rating_step pairs (ts, tc)
    = (ts + sum_scores inc, tc + sum_counts inc)%Z.
Proof.
  unfold sum_scores, sum_counts.
  induction pairs as [|[o c] pairs IH]; intros ts tc; simpl.
  - unfold sum_list. simpl. f_equal; lia.
  - unfold rating_step at 2. simpl. destruct (py_int o) as [score|]; simpl.
    + rewrite IH, !sum_list_cons. simpl. unfold omap. f_equal; lia.
    + apply IH.
Qed.

Lemma included_counts_nonneg (q : Question) :
  Forall (fun c => (0 <= c)%Z) (data q) ->
  Forall (fun c => (0 <= c)%Z) (List.map snd (included_pairs q)).
Proof.
  unfold included_pairs. generalize (options q). 
  induction (data q) as [|c cs IH]; intros os H.
  - destruct os; constructor.
  - destruct os as [|o os]; [constructor|]. simpl.
    apply Forall_cons in H as [Hc Hcs].
    destruct (py_int o); simpl; [constructor; [exact Hc|]|]; now apply IH.
Qed.

(** C4. For a rating question, the average that is displayed is the sum of
    rating times count divided by the sum of the counts, both taken over the
    pairs whose option label [int()] accepts; the other pairs are left out
    without any error. No average is produced exactly when the included
    counts do not add up to a positive number, which for counts that are not
    negative means: no pair parses or the included total is zero. *)
Theorem rating_average_spec (q : Question) :
  qtype q = rating ->
  let inc := included_pairs q in
  (forall avg, rating_average q = Some avg ->
     (0 < sum_counts inc)%Z
     /\ (avg == inject_Z (sum_scores inc) / inject_Z (sum_counts inc))%Q)
  /\ (rating_average q = None <-> (sum_counts inc <= 0)%Z)
  /\ (Forall (fun c => (0 <= c)%Z) (data q) ->
      (rating_average q = None <-> inc = [] \/ sum_counts inc = 0%Z)).
Proof.
  intros Hty inc.
  assert (Htot : rating_totals q = (sum_scores inc, sum_counts inc)).
  { unfold rating_totals. rewrite rating_fold. reflexivity. }
  assert (Hempty : data q = [] -> sum_counts inc = 0%Z).
  { intros E. unfold inc, included_pairs. rewrite E.
    destruct (options q); reflexivity. }
  assert (Hnone : rating_average q = None <-> (sum_counts inc <= 0)%Z).
  { unfold rating_average. rewrite Hty, Htot.
    destruct (data q) as [|d ds] eqn:Ed.
    - specialize (Hempty eq_refl). split; [lia|reflexivity].
    - destruct (0 <? sum_counts inc)%Z eqn:Ep.
      + apply Z.ltb_lt in Ep. split; [discriminate|lia].
      + apply Z.ltb_ge in Ep. split; [lia|reflexivity]. }
  split; [|split; [exact Hnone|]].
  - intros avg Havg.
    assert (Hpos : (0 < sum_counts inc)%Z).
    { destruct (Z_lt_le_dec 0 (sum_counts inc)) as [H|H]; [exact H|].
      apply Hnone in H. congruence. }
    split; [exact Hpos|].
    unfold rating_average in Havg. rewrite Hty, Htot in Havg.
    destruct (data q); [discriminate|].
    destruct (0 <? sum_counts inc)%Z; [|discriminate].
    injection Havg as <-.
    destruct (sum_counts inc) as [|p|p]; try lia.
    simpl. apply Qmake_Qdiv.
  - intros Hnn. rewrite Hnone.
    pose proof (sum_list_nonneg _ (included_counts_nonneg q Hnn)) as Hge.
    fold (sum_counts (included_pairs q)) in Hge. fold inc in Hge.
    split.
    + intros H. right. lia.
    + intros [E|E]; [rewrite E; unfold sum_counts, sum_list; simpl; lia|lia].
Qed.

Lemma rating_average_spec_witness :
  exists avg,
    rating_average
      (mkQuestion (u "S") rating [u "1"; u "2"; u "n/a"] [52; 11; 7]%Z)
    = Some avg
    /\ (avg == 74 # 63)%Q.
Proof.
  pose (q := mkQuestion (u "S") rating [u "1"; u "2"; u "n/a"] [52; 11; 7]%Z).
  destruct (rating_average_spec q eq_refl) as (H & _ & _).
  exists (74 # 63)%Q. split; [vm_compute; reflexivity|].
  destruct (H (74 # 63)%Q) as [_ E]; [vm_compute; reflexivity|]. reflexivity.
Defined.

(** ** The matcher *)

Section Matcher.

Variable cut : str -> list str.

(** C10. The similarity of two texts does not depend on their order. *)
Theorem similarity_symmetric (text1 text2 : str) :
  calculate_text_similarity cut text1 text2
  = calculate_text_similarity cut text2 text1.
Proof.
  unfold calculate_text_similarity.
  set (A := list_to_set (cut text1) : gset str).
  set (B := list_to_set (cut text2) : gset str).
  rewrite (comm_L (∩) B A), (comm_L (∪) B A).
  destruct (decide (A = ∅ \/ B = ∅)) as [H|H];
    destruct (decide (B = ∅ \/ A = ∅)) as [H'|H']; try reflexivity;
    exfalso; tauto.
Qed.

Lemma similarity_jaccard (text1 text2 : str) :
  (calculate_text_similarity cut text1 text2
   == jaccard (tokens cut text1) (tokens cut text2))%Q.
Proof.
  unfold calculate_text_similarity, jaccard, tokens.
  set (A := list_to_set (cut text1) : gset str).
  set (B := list_to_set (cut text2) : gset str).
  destruct (decide (A = ∅ \/ B = ∅)) as [H|H]; [reflexivity|].
  assert (Hsz : size (A ∪ B) <> 0).
  { intros Hz. apply size_empty_iff in Hz. apply H. left.
    apply leibniz_equiv. set_solver. }
  rewrite Qmake_Qdiv.
  replace (Z.pos (Pos.of_nat (size (A ∪ B)))) with (Z.of_nat (size (A ∪ B)));
    [reflexivity|].
  destruct (size (A ∪ B)) as [|n]; [contradiction|]. lia.
Qed.

Lemma above_threshold_lt (x : Q) :
  above_threshold x = true <-> (threshold < x)%Q.
Proof.
  unfold above_threshold. rewrite negb_true_iff.
  destruct (Qle_bool x threshold) eqn:E.
  - apply Qle_bool_iff in E. split; [discriminate|].
    intros H. exfalso. now apply (Qlt_not_le _ _ H).
  - split; [intros _|reflexivity]. apply Qnot_le_lt. intros H.
    apply Qle_bool_iff in H. congruence.
Qed.

Lemma match_items_elem (item1 item2 : str * Question) (p : MatchedPair) :
  p ∈ match_items cut item1 item2 <->
  qtype (snd item1) = qtype (snd item2)
  /\ qtype (snd item1) <> fill_in_blank
  /\ (threshold < calculate_text_similarity cut (fst item1) (fst item2))%Q
  /\ p = mkMatchedPair (fst item1) (fst item2) (qtype (snd item1))
           (calculate_text_similarity cut (fst item1) (fst item2))
           (snd item1) (snd item2).
Proof.
  destruct item1 as [k1 q1], item2 as [k2 q2]. unfold match_items. simpl.
  destruct (bool_decide (qtype q1 = qtype q2)) eqn:E1;
    [apply bool_decide_eq_true in E1|apply bool_decide_eq_false in E1];
    (destruct (bool_decide (qtype q1 <> fill_in_blank)) eqn:E2;
     [apply bool_decide_eq_true in E2|apply bool_decide_eq_false in E2]);
    simpl.
  2-4: split; [intros H; inversion H|tauto].
  destruct (above_threshold _) eqn:E3.
  - apply above_threshold_lt in E3. rewrite list_elem_of_singleton. tauto.
  - split; [intros H; inversion H|]. intros (_ & _ & H & _).
    apply above_threshold_lt in H. congruence.
Qed.

Lemma match_items_length (item1 item2 : str * Question) :
  length (match_items cut item1 item2) <= 1.
Proof.
  destruct item1, item2. unfold match_items.
  destruct (_ && _); [|simpl; lia]. destruct (above_threshold _); simpl; lia.
Qed.

Lemma encountered_elem (s1 s2 : Survey) (p : MatchedPair) :
  p ∈ encountered_pairs cut s1 s2 <->
  exists item1 item2,
    item1 ∈ s1 /\ item2 ∈ s2 /\ p ∈ match_items cut item1 item2.
Proof.
  unfold encountered_pairs. rewrite list_elem_of_In, in_flat_map. split.
  - intros (item1 & H1 & H). apply in_flat_map in H as (item2 & H2 & H).
    exists item1, item2. rewrite !list_elem_of_In. auto.
  - intros (item1 & item2 & H1 & H2 & H). exists item1.
    rewrite <- list_elem_of_In. split; [exact H1|].
    apply in_flat_map. exists item2. rewrite <- !list_elem_of_In. auto.
Qed.

Lemma insert_desc_elem (x : MatchedPair) (l : list MatchedPair) p :
  p ∈ insert_desc x l <-> p = x \/ p ∈ l.
Proof.
  induction l as [|y l IH]; simpl.
  - rewrite list_elem_of_singleton. split; [auto|]. intros [H|H]; [exact H|].
    inversion H.
  - destruct (Qle_bool _ _); rewrite !elem_of_cons; [tauto|].
    rewrite IH. tauto.
Qed.

Lemma sort_desc_elem (l : list MatchedPair) p : p ∈ sort_desc l <-> p ∈ l.
Proof.
  induction l as [|x l IH]; simpl; [tauto|].
  rewrite insert_desc_elem, elem_of_cons, IH. tauto.
Qed.

Lemma find_matching_sorted_encounter (s1 s2 : Survey) :
  find_matching_questions cut s1 s2
  = sort_desc (encountered_pairs cut s1 s2).
Proof.
  unfold find_matching_questions.
  destruct s1 as [|i1 s1]; [reflexivity|].
  destruct s2 as [|i2 s2]; [|reflexivity].
  unfold encountered_pairs. simpl.
  induction s1 as [|i1' s1 IH]; [reflexivity|exact IH].
Qed.

(** C2. For two parsed surveys the matcher returns exactly the pairs of a
    question of the first and a question of the second survey that have the
    same type, not fill-in-blank, and whose texts have a Jaccard similarity
    above 0.6. Every returned pair records that similarity, which is above
    the threshold, and neither of its questions is fill-in-blank. *)
Theorem matching_pairs_exact (md1 md2 : str) (s1 s2 : Survey) :
  parse_md_metadata_with_data md1 = Some s1 ->
  parse_md_metadata_with_data md2 = Some s2 ->
  let result := find_matching_questions cut s1 s2 in
  (forall q1 q2,
      (exists p, p ∈ result /\ data1 p = q1 /\ data2 p = q2)
      <-> ((exists k1, (k1, q1) ∈ s1) /\ (exists k2, (k2, q2) ∈ s2)
           /\ qtype q1 = qtype q2 /\ qtype q1 <> fill_in_blank
           /\ (threshold
               < jaccard (tokens cut (text q1)) (tokens cut (text q2)))%Q))
  /\ (forall p, p ∈ result ->
        qtype (data1 p) <> fill_in_blank
        /\ qtype (data2 p) <> fill_in_blank
        /\ mtype p = qtype (data1 p)
        /\ question1 p = text (data1 p) /\ question2 p = text (data2 p)
        /\ (similarity p
            == jaccard (tokens cut (text (data1 p)))
                       (tokens cut (text (data2 p))))%Q
        /\ (threshold < similarity p)%Q).
Proof.
  unfold parse_md_metadata_with_data. rewrite !parse_lines_scan.
  intros [= <-] [= <-]. cbv zeta.
  rewrite find_matching_sorted_encounter.
  set (l1 := split newline md1). set (l2 := split newline md2).
  assert (Hkey1 : forall k q, (k, q) ∈ scan_lines l1 -> k = text q)
    by (intros k q H; now apply scan_lines_ok in H).
  assert (Hkey2 : forall k q, (k, q) ∈ scan_lines l2 -> k = text q)
    by (intros k q H; now apply scan_lines_ok in H).
  split.
  - intros q1 q2. split.
    + intros (p & Hp & <- & <-).
      apply sort_desc_elem, encountered_elem in Hp
        as ([k1 q1] & [k2 q2] & H1 & H2 & Hp).
      apply match_items_elem in Hp as (Ety & Hne & Hlt & ->). simpl in *.
      rewrite similarity_jaccard in Hlt.
      rewrite (Hkey1 _ _ H1), (Hkey2 _ _ H2) in Hlt. eauto 10.
    + intros ((k1 & H1) & (k2 & H2) & Ety & Hne & Hlt).
      exists (mkMatchedPair k1 k2 (qtype q1)
                (calculate_text_similarity cut k1 k2) q1 q2).
      split; [|split; reflexivity].
      apply sort_desc_elem, encountered_elem.
      exists (k1, q1), (k2, q2). split; [exact H1|]. split; [exact H2|].
      apply match_items_elem. simpl. repeat split; auto.
      rewrite similarity_jaccard, (Hkey1 _ _ H1), (Hkey2 _ _ H2). exact Hlt.
  - intros p Hp.
    apply sort_desc_elem, encountered_elem in Hp
      as ([k1 q1] & [k2 q2] & H1 & H2 & Hp).
    apply match_items_elem in Hp as (Ety & Hne & Hlt & ->). simpl in *.
    rewrite <- (Hkey1 _ _ H1), <- (Hkey2 _ _ H2).
    repeat split; auto; [congruence|apply similarity_jaccard].
Qed.

End Matcher.

Lemma matching_pairs_exact_witness :
  exists p,
    p ∈ find_matching_questions (split 32%N)
          [(u "do you agree",
            mkQuestion (u "do you agree") single_choice [u "A"] [1%Z])]
          [(u "do you agree",
            mkQuestion (u "do you agree") single_choice [u "B"] [2%Z])]
    /\ data1 p = mkQuestion (u "do you agree") single_choice [u "A"] [1%Z]
    /\ data2 p = mkQuestion (u "do you agree") single_choice [u "B"] [2%Z].
Proof.
  apply (matching_pairs_exact (split 32%N)
           (u "问题1:【单选题】do you agree
A: 1")
           (u "问题1:【单选题】do you agree
B: 2")).
  - vm_compute. reflexivity.
  - vm_compute. reflexivity.
  - split; [eexists; apply list_elem_of_singleton; reflexivity|].
    split; [eexists; apply list_elem_of_singleton; reflexivity|].
    split; [reflexivity|]. split; [discriminate|].
    vm_compute. reflexivity.
Defined.

(** ** Order of the matched pairs *)

Section Before.

Context {A : Type}.

Lemma before_cons (x : A) (l : list A) (a b : A) :
  before (x :: l) a b <-> (a = x /\ b ∈ l) \/ before l a b.
Proof.
  unfold before. split.
  - intros (i & j & Hij & Hi & Hj). destruct j as [|j]; [lia|].
    simpl in Hj. destruct i as [|i].
    + left. simpl in Hi. injection Hi as <-. split; [reflexivity|].
      apply list_elem_of_lookup. eauto.
    + right. exists i, j. simpl in Hi. split; [lia|auto].
  - intros [[-> Hb]|(i & j & Hij & Hi & Hj)].
    + apply list_elem_of_lookup in Hb as [j Hj]. exists 0, (S j).
      split; [lia|auto].
    + exists (S i), (S j). split; [lia|auto].
Qed.

Lemma before_nil (a b : A) : ~ before [] a b.
Proof. intros (i & j & _ & Hi & _). destruct i; discriminate. Qed.

Lemma before_app (l1 l2 : list A) (a b : A) :
  before (l1 ++ l2) a b ->
  before l1 a b \/ (a ∈ l1 /\ b ∈ l2) \/ before l2 a b.
Proof.
  induction l1 as [|x l1 IH]; simpl; [auto|].
  rewrite !before_cons, elem_of_app, elem_of_cons.
  intros [[-> [H|H]]|H]; [auto|auto|].
  destruct (IH H) as [H'|[[H1 H2]|H']]; auto.
Qed.

Lemma before_short (l : list A) (a b : A) : length l <= 1 -> ~ before l a b.
Proof.
  intros Hl (i & j & Hij & Hi & Hj).
  apply lookup_lt_Some in Hj. lia.
Qed.

(** Two elements of a concatenation of images, in order: they come from two
    arguments in that order, or from one argument, in order in its image. *)
Lemma before_flat_map {B : Type} (G : B -> list A) (l : list B) (a b : A) :
  before (flat_map G l) a b ->
  (exists i j x y,
      i < j /\ l !! i = Some x /\ l !! j = Some y /\ a ∈ G x /\ b ∈ G y)
  \/ (exists i x, l !! i = Some x /\ before (G x) a b).
Proof.
  induction l as [|x l IH]; simpl; [intros H; now apply before_nil in H|].
  intros H. apply before_app in H as [H|[[Ha Hb]|H]].
  - right. exists 0, x. auto.
  - left. apply list_elem_of_In, in_flat_map in Hb as (y & Hy & Hb).
    apply list_elem_of_In, list_elem_of_lookup in Hy as [j Hj].
    exists 0, (S j), x, y. rewrite <- list_elem_of_In in Hb.
    split; [lia|auto].
  - destruct (IH H) as [(i & j & x' & y & Hij & Hi & Hj & Ha & Hb)
                       |(i & x' & Hi & Hb)].
    + left. exists (S i), (S j), x', y. split; [lia|auto].
    + right. exists (S i), x'. auto.
Qed.

End Before.

Section MatcherOrder.

Variable cut : str -> list str.

Lemma insert_desc_before (x : MatchedPair) (l : list MatchedPair) a b :
  before (insert_desc x l) a b ->
  (a = x /\ b ∈ l)
  \/ (b = x /\ a ∈ l /\ (similarity x < similarity a)%Q)
  \/ before l a b.
Proof.
  induction l as [|y l IH]; simpl.
  - intros H. exfalso. revert H. apply before_short. simpl. lia.
  - destruct (Qle_bool (similarity y) (similarity x)) eqn:E.
    + rewrite before_cons. tauto.
    + assert (Hlt : (similarity x < similarity y)%Q).
      { apply Qnot_le_lt. intros H. apply Qle_bool_iff in H. congruence. }
      rewrite (before_cons y (insert_desc x l)), insert_desc_elem.
      intros [[-> [->|Hb]]|H].
      * right. left. split; [reflexivity|]. split; [|exact Hlt].
        apply elem_of_cons. now left.
      * right. right. apply before_cons. auto.
      * destruct (IH H) as [[-> Hb]|[(-> & Ha & Hs)|H']].
        -- left. split; [reflexivity|]. apply elem_of_cons. now right.
        -- right. left. split; [reflexivity|]. split; [|exact Hs].
           apply elem_of_cons. now right.
        -- right. right. apply before_cons. auto.
Qed.

Lemma insert_desc_sorted (x : MatchedPair) (l : list MatchedPair) :
  (forall a b, before l a b -> (similarity b <= similarity a)%Q) ->
  forall a b, before (insert_desc x l) a b ->
              (similarity b <= similarity a)%Q.
Proof.
  induction l as [|y l IH]; intros Hs a b; simpl.
  - intros H. exfalso. revert H. apply before_short. simpl. lia.
  - destruct (Qle_bool (similarity y) (similarity x)) eqn:E.
    + apply Qle_bool_iff in E. rewrite before_cons.
      intros [[-> Hb]|H]; [|now apply Hs].
      apply elem_of_cons in Hb as [->|Hb]; [exact E|].
      apply Qle_trans with (similarity y); [|exact E].
      apply Hs. apply before_cons. auto.
    + assert (Hlt : (similarity x < similarity y)%Q).
      { apply Qnot_le_lt. intros H. apply Qle_bool_iff in H. congruence. }
      rewrite (before_cons y (insert_desc x l)), insert_desc_elem.
      intros [[-> [->|Hb]]|H].
      * now apply Qlt_le_weak.
      * apply Hs. apply before_cons. auto.
      * apply IH; [|exact H]. intros a' b' H'. apply Hs.
        apply before_cons. auto.
Qed.

Lemma sort_desc_sorted (l : list MatchedPair) :
  forall a b, before (sort_desc l) a b -> (similarity b <= similarity a)%Q.
Proof.
  induction l as [|x l IH]; simpl.
  - intros a b H. now apply before_nil in H.
  - now apply insert_desc_sorted.
Qed.

Lemma sort_desc_stable (l : list MatchedPair) :
  forall a b,
    before (sort_desc l) a b -> (similarity a == similarity b)%Q ->
    before l a b.
Proof.
  induction l as [|x l IH]; simpl; intros a b H E.
  - now apply before_nil in H.
  - apply before_cons.
    apply insert_desc_before in H as [[-> Hb]|[(-> & Ha & Hs)|H]].
    + left. split; [reflexivity|]. now apply sort_desc_elem.
    + exfalso. rewrite E in Hs. now apply Qlt_irrefl in Hs.
    + right. now apply IH.
Qed.

Lemma encountered_before (s1 s2 : Survey) (p p' : MatchedPair) :
  before (encountered_pairs cut s1 s2) p p' ->
  exists a b a' b',
    s1 !! a = Some (question1 p, data1 p)
    /\ s2 !! b = Some (question2 p, data2 p)
    /\ s1 !! a' = Some (question1 p', data1 p')
    /\ s2 !! b' = Some (question2 p', data2 p')
    /\ (a < a' \/ (a = a' /\ b < b')).
Proof.
  assert (Hitem : forall it1 it2 q, q ∈ match_items cut it1 it2 ->
                    it1 = (question1 q, data1 q)
                    /\ it2 = (question2 q, data2 q)).
  { intros [k1 q1] [k2 q2] q Hq.
    apply match_items_elem in Hq as (_ & _ & _ & ->). auto. }
  assert (Hin : forall it1 q,
             q ∈ flat_map (fun it2 => match_items cut it1 it2) s2 ->
             it1 = (question1 q, data1 q)
             /\ exists b, s2 !! b = Some (question2 q, data2 q)).
  { intros it1 q Hq. apply list_elem_of_In, in_flat_map in Hq as (it2 & H2 & Hq).
    apply list_elem_of_In in Hq. destruct (Hitem _ _ _ Hq) as [-> ->].
    split; [reflexivity|].
    apply list_elem_of_In, list_elem_of_lookup in H2. exact H2. }
  unfold encountered_pairs. intros H.
  apply before_flat_map in H
    as [(a & a' & it1 & it1' & Haa & Ha & Ha' & Hp & Hp')|(a & it1 & Ha & H)].
  - destruct (Hin _ _ Hp) as [-> [b Hb]].
    destruct (Hin _ _ Hp') as [-> [b' Hb']].
    exists a, b, a', b'. auto 10.
  - apply before_flat_map in H
      as [(b & b' & it2 & it2' & Hbb & Hb & Hb' & Hp & Hp')|(b & it2 & _ & H)].
    + destruct (Hitem _ _ _ Hp) as [E1 ->].
      destruct (Hitem _ _ _ Hp') as [E1' ->].
      pose proof Ha as Ha'. rewrite E1 in Ha. rewrite E1' in Ha'.
      exists a, b, a, b'. auto 10.
    + exfalso. revert H. apply before_short, match_items_length.
Qed.

(** C8. The matched pairs are returned in descending order of similarity,
    and two pairs of equal similarity are returned in the order in which the
    loops met them: the one whose first question comes earlier in the first
    survey first, and for the same first question the one whose second
    question comes earlier in the second survey. *)
Theorem matching_pairs_order (s1 s2 : Survey) :
  let result := find_matching_questions cut s1 s2 in
  (forall i j p p',
      i < j -> result !! i = Some p -> result !! j = Some p' ->
      (similarity p' <= similarity p)%Q)
  /\ (forall i j p p',
        i < j -> result !! i = Some p -> result !! j = Some p' ->
        (similarity p == similarity p')%Q ->
        exists a b a' b',
          s1 !! a = Some (question1 p, data1 p)
          /\ s2 !! b = Some (question2 p, data2 p)
          /\ s1 !! a' = Some (question1 p', data1 p')
          /\ s2 !! b' = Some (question2 p', data2 p')
          /\ (a < a' \/ (a = a' /\ b < b'))).
Proof.
  intros result. subst result. rewrite find_matching_sorted_encounter. split.
  - intros i j p p' Hij Hi Hj. apply sort_desc_sorted with (l := encountered_pairs cut s1 s2).
    exists i, j. auto.
  - intros i j p p' Hij Hi Hj E. apply encountered_before.
    apply sort_desc_stable; [|exact E]. exists i, j. auto.
Qed.

End MatcherOrder.

Example matching_order_demo :
  List.map (fun p => (question1 p, question2 p))
    (find_matching_questions (split 32%N)
       [(u "a b c", mkQuestion (u "a b c") rating [] []);
        (u "a b c d", mkQuestion (u "a b c d") rating [] [])]
       [(u "a b c d", mkQuestion (u "a b c d") rating [] []);
        (u "a b c", mkQuestion (u "a b c") rating [] [])])
  = [(u "a b c", u "a b c"); (u "a b c d", u "a b c d");
     (u "a b c", u "a b c d"); (u "a b c d", u "a b c")].
Proof. vm_compute. reflexivity. Qed.

(** ** The aligner *)

Lemma index_of_spec (o : str) (l : list str) :
  o ∈ l ->
  exists j, index_of o l = Some j /\ l !! j = Some o
            /\ forall j', j' < j -> l !! j' <> Some o.
Proof.
  induction l as [|y l IH]; intros Hin; [inversion Hin|].
  simpl. destruct (decide (y = o)) as [->|Hne].
  - exists 0. repeat split. intros j' Hj'. lia.
  - apply elem_of_cons in Hin as [->|Hin]; [contradiction|].
    destruct (IH Hin) as (j & -> & Hj & Hfirst). exists (S j).
    repeat split; [exact Hj|]. intros [|j'] Hlt; simpl.
    + congruence.
    + apply Hfirst. lia.
Qed.

Lemma side_count_spec (o : str) (d : Question) :
  length (options d) = length (data d) ->
  exists c, side_count o d = Some c /\ corresponding_count d o c.
Proof.
  intros Hlen. unfold side_count, corresponding_count.
  destruct (bool_decide (o ∈ options d)) eqn:E.
  - apply bool_decide_eq_true in E.
    destruct (index_of_spec _ _ E) as (j & -> & Hj & Hfirst).
    destruct (lookup_lt_is_Some_2 (data d) j) as [c Hc].
    { rewrite <- Hlen. eapply lookup_lt_Some, Hj. }
    exists c. split; [exact Hc|]. right. exists j. auto.
  - apply bool_decide_eq_false in E. exists 0%Z. auto.
Qed.

Lemma align_loop_spec (d1 d2 : Question) :
  length (options d1) = length (data d1) ->
  length (options d2) = length (data d2) ->
  forall opts,
    exists c1 c2,
      align_loop opts d1 d2 = Some (c1, c2)
      /\ length c1 = length opts /\ length c2 = length opts
      /\ forall k o, opts !! k = Some o ->
           exists x y, c1 !! k = Some x /\ c2 !! k = Some y
                       /\ corresponding_count d1 o x
                       /\ corresponding_count d2 o y.
Proof.
  intros H1 H2. induction opts as [|o opts (c1 & c2 & E & L1 & L2 & Hk)].
  - exists [], []. repeat split. intros k o H. discriminate.
  - destruct (side_count_spec o d1 H1) as (x & Ex & Hx).
    destruct (side_count_spec o d2 H2) as (y & Ey & Hy).
    exists (x :: c1), (y :: c2). simpl. rewrite Ex, Ey, E, L1, L2.
    repeat split. intros [|k] o' Ho'; simpl in *.
    + injection Ho' as <-. exists x, y. auto.
    + now apply Hk.
Qed.

Section Aligner.

Variable set_to_list : gset str -> list str.
Hypothesis set_to_list_NoDup : forall X, NoDup (set_to_list X).
Hypothesis set_to_list_elem : forall X x, x ∈ set_to_list X <-> x ∈ X.

Lemma set_to_list_length (X : gset str) : length (set_to_list X) = size X.
Proof.
  unfold size, set_size. simpl. apply Permutation_length.
  apply NoDup_Permutation; [apply set_to_list_NoDup|apply NoDup_elements|].
  intros x. rewrite set_to_list_elem, elem_of_elements. reflexivity.
Qed.

(** C5. For two questions whose options and counts are parallel, both
    comparison builders align them the same way: the aligned options are the
    set union of the two option lists, each option of either side exactly
    once, so as many as the union has elements; the two count lists are as
    long as the options, and at every position they hold the count of that
    option on their side, 0 when the side does not have the option. *)
Theorem align_spec (d1 d2 : Question) :
  length (options d1) = length (data d1) ->
  length (options d2) = length (data d2) ->
  exists r,
    create_single_choice_comparison set_to_list d1 d2 = Some r
    /\ create_multiple_choice_comparison set_to_list d1 d2 = Some r
    /\ NoDup (all_options r)
    /\ (forall o, o ∈ all_options r <-> o ∈ options d1 \/ o ∈ options d2)
    /\ length (all_options r)
       = size (list_to_set (options d1) ∪ list_to_set (options d2)
               : gset str)
    /\ length (counts1 r) = length (all_options r)
    /\ length (counts2 r) = length (all_options r)
    /\ forall k o, all_options r !! k = Some o ->
         exists x y, counts1 r !! k = Some x /\ counts2 r !! k = Some y
                     /\ corresponding_count d1 o x
                     /\ corresponding_count d2 o y.
Proof.
  intros H1 H2.
  unfold create_single_choice_comparison, create_multiple_choice_comparison,
    align.
  set (opts := set_to_list (list_to_set (options d1 ++ options d2))).
  destruct (align_loop_spec d1 d2 H1 H2 opts) as (c1 & c2 & E & L1 & L2 & Hk).
  rewrite E. exists (mkAligned opts c1 c2). simpl.
  repeat split; auto.
  - apply set_to_list_NoDup.
  - unfold opts. rewrite set_to_list_elem. set_solver.
  - unfold opts. rewrite set_to_list_elem. set_solver.
  - unfold opts. rewrite set_to_list_length. f_equal.
    apply list_to_set_app_L.
Qed.

End Aligner.

Lemma align_spec_witness :
  exists r,
    create_single_choice_comparison elements
      (mkQuestion (u "Q") single_choice [u "A"] [10%Z])
      (mkQuestion (u "Q") single_choice [u "B"] [20%Z]) = Some r
    /\ length (all_options r) = 2.
Proof.
  destruct (align_spec elements
              (fun X => NoDup_elements X)
              (fun X x => elem_of_elements X x)
              (mkQuestion (u "Q") single_choice [u "A"] [10%Z])
              (mkQuestion (u "Q") single_choice [u "B"] [20%Z])
              eq_refl eq_refl)
    as (r & E & _ & _ & _ & Hlen & _).
  exists r. split; [exact E|]. rewrite Hlen. vm_compute. reflexivity.
Defined.

(** * Further properties *)

(** ** The parser on whole documents *)

(** A line the outer loop passes over: no question line, or one whose tag is
    not a type label. *)
Lemma outer_step_passed (cur : option (str * Question)) (l : str) :
  is_question_header (strip l) = false
  \/ lookup_question_type (strip l) = None ->
  outer_step cur [] l = Outer cur (save cur [])
  \/ outer_step cur [] l = Outer cur [].
Proof.
  unfold outer_step. intros [H|H].
  - rewrite H. now right.
  - destruct (is_question_header (strip l)); [|now right].
    rewrite H. now left.
Qed.

(** A document without any recognized question line, the empty document
    included, parses to the empty survey. *)
Theorem parse_without_question (md_content : str) :
  (forall l, l ∈ split newline md_content ->
             is_question_header (strip l) = false
             \/ lookup_question_type (strip l) = None) ->
  parse_md_metadata_with_data md_content = Some [].
Proof.
  unfold parse_md_metadata_with_data. rewrite parse_lines_scan.
  unfold scan_lines. intros H. f_equal.
  induction (split newline md_content) as [|l ls IH]; [reflexivity|].
  simpl. destruct (outer_step_passed None l) as [E|E].
  - apply H. apply elem_of_cons. now left.
  - rewrite E. simpl. apply IH. intros l' Hl'. apply H.
    apply elem_of_cons. now right.
  - rewrite E. apply IH. intros l' Hl'. apply H.
    apply elem_of_cons. now right.
Qed.

Lemma parse_without_question_witness :
  parse_md_metadata_with_data (u "notes
问题1:【判断题】X
A: 1") = Some [].
Proof.
  apply parse_without_question. intros l Hl.
  vm_compute in Hl.
  repeat (apply elem_of_cons in Hl as [->|Hl];
          [vm_compute; tauto|]).
  inversion Hl.
Defined.

Lemma dict_set_keys {V : Type} (k : str) (v : V) (d : Dict V) :
  List.map fst (dict_set k v d)
  = if bool_decide (k ∈ List.map fst d) then List.map fst d
    else List.map fst d ++ [k].
Proof.
  induction d as [|[k0 v0] d IH].
  - rewrite (bool_decide_eq_false_2 (k ∈ List.map fst []));
      [reflexivity|]. intros H. inversion H.
  - cbn [dict_set List.map fst].
    destruct (decide (k0 = k)) as [->|Hne]; cbn [List.map fst].
    + rewrite (bool_decide_eq_true_2 (k ∈ k :: List.map fst d));
        [reflexivity|]. apply elem_of_cons. now left.
    + rewrite IH. destruct (bool_decide (k ∈ List.map fst d)) eqn:E.
      * apply bool_decide_eq_true in E.
        rewrite (bool_decide_eq_true_2 (k ∈ k0 :: List.map fst d));
          [reflexivity|]. apply elem_of_cons. now right.
      * apply bool_decide_eq_false in E.
        rewrite (bool_decide_eq_false_2 (k ∈ k0 :: List.map fst d));
          [reflexivity|].
        rewrite elem_of_cons. intros [->|H]; contradiction.
Qed.

Lemma dict_set_NoDup {V : Type} (k : str) (v : V) (d : Dict V) :
  NoDup (List.map fst d) -> NoDup (List.map fst (dict_set k v d)).
Proof.
  intros H. rewrite dict_set_keys.
  destruct (bool_decide (k ∈ List.map fst d)) eqn:E; [exact H|].
  apply bool_decide_eq_false in E. apply NoDup_app. split; [exact H|].
  split; [|apply NoDup_singleton].
  intros x Hx Hk. apply list_elem_of_singleton in Hk as ->. contradiction.
Qed.

Lemma dict_set_length {V : Type} (k : str) (v : V) (d : Dict V) :
  length d <= length (dict_set k v d) <= S (length d).
Proof.
  rewrite <- !(length_map fst), dict_set_keys.
  destruct (bool_decide _); rewrite ?length_app; simpl; lia.
Qed.

Lemma dict_set_length_key {V : Type} (k : str) (v v' : V) (d : Dict V) :
  length (dict_set k v d) = length (dict_set k v' d).
Proof. now rewrite <- !(length_map fst), !dict_set_keys. Qed.

Lemma line_step_NoDup (st : scan_state) (l : str) :
  NoDup (List.map fst (questions_of st)) ->
  NoDup (List.map fst (questions_of (line_step st l))).
Proof.
  assert (Hsave : forall cur qs, NoDup (List.map fst qs) ->
                                 NoDup (List.map fst (save cur qs))).
  { intros [[k q]|] qs H; [now apply dict_set_NoDup|exact H]. }
  assert (Houter : forall cur qs, NoDup (List.map fst qs) ->
            NoDup (List.map fst (questions_of (outer_step cur qs l)))).
  { intros cur qs H. unfold outer_step.
    destruct (is_question_header (strip l)); [|exact H].
    destruct (lookup_question_type (strip l)); simpl; now apply Hsave. }
  destruct st as [cur qs|ty txt cq qs]; simpl; intros H.
  - now apply Houter.
  - destruct (decide (strip l = [])); [exact H|].
    destruct (is_question_header (strip l)); [now apply Houter|].
    destruct ty; exact H.
Qed.

(** The questions of a parsed survey are stored under their own texts, and
    no text occurs twice among the keys. *)
Theorem parse_keys (md_content : str) (questions : Survey) :
  parse_md_metadata_with_data md_content = Some questions ->
  NoDup (List.map fst questions)
  /\ forall k q, (k, q) ∈ questions -> k = text q.
Proof.
  unfold parse_md_metadata_with_data. rewrite parse_lines_scan.
  intros [= <-]. split.
  - unfold scan_lines.
    assert (H : forall ls st,
               NoDup (List.map fst (questions_of st)) ->
               NoDup (List.map fst
                        (questions_of (fold_left line_step ls st)))).
    { induction ls as [|l ls IH]; intros st Hst; [exact Hst|].
      simpl. apply IH. now apply line_step_NoDup. }
    specialize (H (split newline md_content) (Outer None [])
                  ltac:(simpl; constructor)).
    destruct (fold_left line_step _ _) as [[[k q]|] qs|ty txt cq qs];
      simpl in *; auto using dict_set_NoDup.
  - intros k q Hq. now apply scan_lines_ok in Hq.
Qed.

Lemma parse_keys_witness :
  NoDup (List.map fst
           [(u "S", mkQuestion (u "S") rating [u "1"] [2%Z]);
            (u "C", mkQuestion (u "C") fill_in_blank [] [37%Z])]).
Proof.
  apply (parse_keys (u "问题1:【评分题】S
1: 2
问题2:【填空题】C
37")).
  vm_compute. reflexivity.
Defined.

Lemma outer_forgets (rest : list str) :
  forall cur qs,
    finish (fold_left line_step rest (Outer cur (save cur qs)))
    = finish (fold_left line_step rest (Outer None (save cur qs))).
Proof.
  induction rest as [|l rest IH]; intros cur qs; simpl.
  - apply save_idem.
  - unfold outer_step. destruct (is_question_header (strip l)); [|apply IH].
    rewrite save_idem. simpl.
    destruct (lookup_question_type (strip l)); [reflexivity|].
    rewrite IH. reflexivity.
Qed.

Lemma header_restarts (h : str) (rest : list str) (st : scan_state) :
  is_question_header (strip h) = true ->
  finish (fold_left line_step rest (line_step st h))
  = finish (fold_left line_step (h :: rest) (Outer None (finish st))).
Proof.
  intros Hh. pose proof (header_nonempty _ Hh) as Hne.
  assert (Hout : forall cur qs,
    finish (fold_left line_step rest (outer_step cur qs h))
    = finish (fold_left line_step rest
                        (outer_step None (save cur qs) h))).
  { intros cur qs. unfold outer_step. rewrite Hh. simpl.
    destruct (lookup_question_type (strip h)); [reflexivity|].
    apply outer_forgets. }
  destruct st as [cur qs|ty txt cq qs]; simpl.
  - apply Hout.
  - rewrite decide_False by exact Hne. rewrite Hh. apply Hout.
Qed.

(** Parsing composes at question lines: a document whose second part starts
    with a question line parses to what the outer loop returns on the second
    part alone when it starts from the survey parsed from the first part. *)
Theorem parse_continues (pre : list str) (h : str) (rest : list str)
    (questions : Survey) :
  parse_lines pre = Some questions ->
  is_question_header (strip h) = true ->
  parse_lines (pre ++ h :: rest)
  = question_while (S (length (h :: rest))) (h :: rest) 0 None questions.
Proof.
  rewrite !parse_lines_scan. intros [= <-] Hh.
  rewrite question_while_fold by lia. f_equal.
  unfold scan_lines. rewrite fold_left_app. cbn [fold_left drop].
  now apply header_restarts.
Qed.

Lemma parse_continues_witness :
  parse_lines ([u "问题1:【评分题】S"; u "1: 2"]
               ++ u "问题2:【填空题】C" :: [u "37"])
  = question_while 3 [u "问题2:【填空题】C"; u "37"] 0 None
      [(u "S", mkQuestion (u "S") rating [u "1"] [2%Z])].
Proof.
  apply (parse_continues [u "问题1:【评分题】S"; u "1: 2"]
                         (u "问题2:【填空题】C") [u "37"]).
  - vm_compute. reflexivity.
  - vm_compute. reflexivity.
Defined.

Lemma fold_outer_plain (ls : list str) (cur : option (str * Question))
    (qs : Survey) :
  (forall l, l ∈ ls -> is_question_header (strip l) = false) ->
  fold_left line_step ls (Outer cur qs) = Outer cur qs.
Proof.
  induction ls as [|l ls IH]; intros H; [reflexivity|].
  simpl. unfold outer_step. rewrite (H l) by (apply elem_of_cons; now left).
  apply IH. intros l' Hl'. apply H. apply elem_of_cons. now right.
Qed.

Lemma dict_get_set_eq {V : Type} (k : str) (v : V) (d : Dict V) :
  dict_get k (dict_set k v d) = Some v.
Proof.
  induction d as [|[k0 v0] d IH]; simpl.
  - now rewrite decide_True.
  - destruct (decide (k0 = k)) as [->|Hne]; simpl.
    + now rewrite decide_True.
    + now rewrite decide_False.
Qed.

Lemma dict_get_set_ne {V : Type} (k k' : str) (v : V) (d : Dict V) :
  k' <> k -> dict_get k' (dict_set k v d) = dict_get k' d.
Proof.
  intros Hne. induction d as [|[k0 v0] d IH]; simpl.
  - rewrite decide_False by congruence. reflexivity.
  - destruct (decide (k0 = k)) as [->|Hne0]; simpl.
    + rewrite !decide_False by congruence. reflexivity.
    + destruct (decide (k0 = k')); [reflexivity|exact IH].
Qed.

(** The last block wins: when a document ends with a recognized question
    line followed by lines that are not question lines, its survey is the
    survey of the part before that line with the question of the block
    stored under the block's text, replacing a question of the same text;
    that question is what the nested loop returns on the block, and a lookup
    of the text finds it. Questions under other texts are as before. *)
Theorem parse_last_block (pre : list str) (h : str) (body : list str)
    (questions : Survey) (ty : QType) :
  parse_lines pre = Some questions ->
  is_question_header (strip h) = true ->
  lookup_question_type (strip h) = Some ty ->
  (forall l, l ∈ body -> is_question_header (strip l) = false) ->
  let txt := extract_question_text (strip h) in
  exists i q,
    data_while (S (length body)) body ty 0 (mkQuestion txt ty [] [])
    = Some (i, q)
    /\ parse_lines (pre ++ h :: body) = Some (dict_set txt q questions)
    /\ dict_get txt (dict_set txt q questions) = Some q
    /\ forall k, k <> txt ->
         dict_get k (dict_set txt q questions) = dict_get k questions.
Proof.
  intros Hpre Hh Hty Hbody txt.
  destruct (data_while_fold body (S (length body)) ty txt 0
              (mkQuestion txt ty [] []) questions)
    as (i & q & E & _ & _ & Hfin); [lia|].
  exists i, q. split; [exact E|]. split; [|split].
  - rewrite (parse_continues pre h body questions Hpre Hh).
    rewrite question_while_fold by lia. f_equal.
    cbn [drop fold_left line_step]. unfold outer_step.
    rewrite Hh, Hty. cbn [save]. fold txt.
    rewrite drop_0 in Hfin. rewrite Hfin.
    rewrite fold_outer_plain; [reflexivity|].
    intros l Hl. apply Hbody.
    apply list_elem_of_lookup in Hl as [j Hj].
    rewrite lookup_drop in Hj. apply list_elem_of_lookup. eauto.
  - apply dict_get_set_eq.
  - intros k Hk. now apply dict_get_set_ne.
Qed.

Lemma parse_last_block_witness :
  parse_lines ([u "问题1:【单选题】Q"; u "A: 1"]
               ++ u "问题2:【单选题】Q" :: [u "B: 2"])
  = Some [(u "Q", mkQuestion (u "Q") single_choice [u "B"] [2%Z])].
Proof.
  destruct (parse_last_block [u "问题1:【单选题】Q"; u "A: 1"]
              (u "问题2:【单选题】Q") [u "B: 2"]
              [(u "Q", mkQuestion (u "Q") single_choice [u "A"] [1%Z])]
              single_choice)
    as (i & q & E & Hp & _).
  - vm_compute. reflexivity.
  - vm_compute. reflexivity.
  - vm_compute. reflexivity.
  - intros l Hl. apply list_elem_of_singleton in Hl as ->.
    vm_compute. reflexivity.
  - rewrite Hp. vm_compute in E. injection E as _ <-.
    vm_compute. reflexivity.
Defined.

Lemma line_step_size (st : scan_state) (l : str) :
  length (finish (line_step st l))
  <= length (finish st) + (if is_recognized_header l then 1 else 0).
Proof.
  assert (Hout : forall cur qs,
    length (finish (outer_step cur qs l))
    <= length (save cur qs) + (if is_recognized_header l then 1 else 0)).
  { intros cur qs. unfold outer_step, is_recognized_header.
    destruct (is_question_header (strip l)); simpl; [|lia].
    destruct (lookup_question_type (strip l)); simpl.
    - pose proof (dict_set_length (extract_question_text (strip l))
        (mkQuestion (extract_question_text (strip l)) q [] [])
        (save cur qs)). lia.
    - rewrite save_idem. lia. }
  destruct st as [cur qs|ty txt cq qs]; simpl.
  - apply Hout.
  - destruct (decide (strip l = [])); [simpl; lia|].
    destruct (is_question_header (strip l)) eqn:Hh.
    + apply (Hout (Some (txt, cq)) qs).
    + destruct ty; simpl;
        rewrite (dict_set_length_key txt _ cq qs); lia.
Qed.

(** A parsed survey never has more questions than the document has
    recognized question lines. *)
Theorem parse_size (md_content : str) (questions : Survey) :
  parse_md_metadata_with_data md_content = Some questions ->
  length questions
  <= length (List.filter is_recognized_header (split newline md_content)).
Proof.
  unfold parse_md_metadata_with_data. rewrite parse_lines_scan.
  intros [= <-]. unfold scan_lines.
  assert (H : forall ls st,
    length (finish (fold_left line_step ls st))
    <= length (finish st) + length (List.filter is_recognized_header ls)).
  { induction ls as [|l ls IH]; intros st; simpl; [lia|].
    specialize (IH (line_step st l)).
    pose proof (line_step_size st l).
    destruct (is_recognized_header l); simpl; lia. }
  apply (H _ (Outer None [])).
Qed.

Lemma parse_size_witness :
  length [(u "Q", mkQuestion (u "Q") single_choice [u "B"] [2%Z])]
  <= length (List.filter is_recognized_header
               (split newline (u "问题1:【单选题】Q
A: 1
问题2:【单选题】Q
B: 2"))).
Proof.
  apply (parse_size (u "问题1:【单选题】Q
A: 1
问题2:【单选题】Q
B: 2")).
  vm_compute. reflexivity.
Defined.

(** ** The summary on whole surveys *)

Lemma count_type_split (P : QType -> bool) (questions : Survey) :
  count_type P questions + count_type (fun ty => negb (P ty)) questions
  = length questions.
Proof.
  unfold count_type. induction questions as [|[k q] qs IH]; [reflexivity|].
  simpl. destruct (P (qtype q)); simpl; lia.
Qed.

(** Every question of a survey is counted once by the summary, as analyzed
    or as skipped. *)
Theorem summary_counts_all (questions : Survey) :
  questions <> [] ->
  exists s,
    generate_summary_report questions = Some s
    /\ analyzed_questions s + skipped_questions s = length questions.
Proof.
  intros Hne.
  destruct (summary_fold questions (mkSummary 0 0 0)) as (Hs & Ha & _);
    [simpl; lia|].
  exists (fold_left summary_step (List.map snd questions) (mkSummary 0 0 0)).
  split; [destruct questions; [contradiction|reflexivity]|].
  rewrite Hs, Ha. simpl.
  pose proof (count_type_split is_fill_in_blank questions). lia.
Qed.

Lemma summary_counts_all_witness :
  exists s,
    generate_summary_report
      [(u "S", mkQuestion (u "S") rating [u "1"] [2%Z]);
       (u "C", mkQuestion (u "C") fill_in_blank [] [37%Z])] = Some s
    /\ analyzed_questions s + skipped_questions s = 2.
Proof.
  apply (summary_counts_all
           [(u "S", mkQuestion (u "S") rating [u "1"] [2%Z]);
            (u "C", mkQuestion (u "C") fill_in_blank [] [37%Z])]).
  discriminate.
Defined.

(** ** More on the matcher *)

Section MatcherFacts.

Variable cut : str -> list str.

Lemma similarity_comm (text1 text2 : str) :
  calculate_text_similarity cut text1 text2
  = calculate_text_similarity cut text2 text1.
Proof.
  unfold calculate_text_similarity.
  set (A := list_to_set (cut text1) : gset str).
  set (B := list_to_set (cut text2) : gset str).
  rewrite (comm_L (∩) B A), (comm_L (∪) B A).
  destruct (decide (A = ∅ \/ B = ∅)) as [H|H];
    destruct (decide (B = ∅ \/ A = ∅)) as [H'|H']; try reflexivity;
    exfalso; tauto.
Qed.

(** The similarity of two texts lies between 0 and 1. *)
Theorem similarity_range (text1 text2 : str) :
  (0 <= calculate_text_similarity cut text1 text2)%Q
  /\ (calculate_text_similarity cut text1 text2 <= 1)%Q.
Proof.
  unfold calculate_text_similarity.
  set (A := list_to_set (cut text1) : gset str).
  set (B := list_to_set (cut text2) : gset str).
  destruct (decide (A = ∅ \/ B = ∅)) as [H|H].
  - split; [apply Qle_refl|discriminate].
  - assert (Hsz : size (A ∪ B) <> 0).
    { intros Hz. apply size_empty_iff in Hz. apply H. left.
      apply leibniz_equiv. set_solver. }
    assert (Hle : size (A ∩ B) <= size (A ∪ B)).
    { apply subseteq_size. etransitivity;
        [apply intersection_subseteq_l|apply union_subseteq_l]. }
    unfold Qle. simpl. split; [lia|].
    destruct (size (A ∪ B)) as [|n]; [contradiction|]. lia.
Qed.

(** A text is as similar as can be to itself, unless it has no token; two
    texts without a common token are not similar at all. *)
Theorem similarity_extremes (text1 text2 : str) :
  (cut text1 <> [] -> (calculate_text_similarity cut text1 text1 == 1)%Q)
  /\ (cut text1 = [] -> calculate_text_similarity cut text1 text2 = 0%Q)
  /\ ((forall w, w ∈ cut text1 -> w ∉ cut text2) ->
      (calculate_text_similarity cut text1 text2 == 0)%Q).
Proof.
  unfold calculate_text_similarity. repeat split.
  - intros Hne.
    assert (HA : (list_to_set (cut text1) : gset str) <> ∅).
    { destruct (cut text1) as [|w ws]; [contradiction|].
      simpl. set_solver. }
    set (A := list_to_set (cut text1) : gset str) in *.
    rewrite decide_False by tauto.
    rewrite (idemp_L (∩) A), (idemp_L (∪) A).
    assert (Hsz : size A <> 0).
    { intros Hz. apply size_empty_iff in Hz. apply HA.
      now apply leibniz_equiv. }
    unfold Qeq. simpl. destruct (size A); [contradiction|]. lia.
  - intros ->. rewrite decide_True; [reflexivity|]. now left.
  - intros Hdis. case_decide; [reflexivity|].
    replace ((list_to_set (cut text1) : gset str) ∩ list_to_set (cut text2))
      with (∅ : gset str).
    + reflexivity.
    + symmetry. apply leibniz_equiv. apply elem_of_equiv_empty. intros w Hw.
      apply elem_of_intersection in Hw as [H1 H2].
      apply elem_of_list_to_set in H1, H2. now apply (Hdis w).
Qed.

(** Matching does not depend on which survey comes first: the pairs found
    for the surveys in the other order are the same pairs read from the
    other side, with the same similarities. *)
Theorem matching_swap (s1 s2 : Survey) (p : MatchedPair) :
  p ∈ find_matching_questions cut s1 s2
  <-> swap_pair p ∈ find_matching_questions cut s2 s1.
Proof.
  rewrite !find_matching_sorted_encounter, !sort_desc_elem,
    !encountered_elem.
  split.
  - intros ([k1 q1] & [k2 q2] & H1 & H2 & Hp).
    apply match_items_elem in Hp as (Ety & Hne & Hlt & ->). simpl in *.
    exists (k2, q2), (k1, q1). split; [exact H2|]. split; [exact H1|].
    apply match_items_elem. unfold swap_pair. simpl.
    rewrite (similarity_comm k2 k1), <- Ety. repeat split; auto.
  - intros ([k2 q2] & [k1 q1] & H2 & H1 & Hp).
    apply match_items_elem in Hp as (Ety & Hne & Hlt & E). simpl in *.
    exists (k1, q1), (k2, q2). split; [exact H1|]. split; [exact H2|].
    apply match_items_elem. simpl.
    destruct p as [a b ty sim d1 d2]. unfold swap_pair in E. simpl in E.
    injection E as -> -> -> -> -> ->.
    rewrite (similarity_comm k1 k2), <- Ety. repeat split; auto.
Qed.

Lemma insert_desc_perm (x : MatchedPair) (l : list MatchedPair) :
  insert_desc x l ≡ₚ x :: l.
Proof.
  induction l as [|y l IH]; simpl; [reflexivity|].
  destruct (Qle_bool _ _); [reflexivity|].
  rewrite IH. apply Permutation_swap.
Qed.

Lemma sort_desc_perm (l : list MatchedPair) : sort_desc l ≡ₚ l.
Proof.
  induction l as [|x l IH]; simpl; [reflexivity|].
  now rewrite insert_desc_perm, IH.
Qed.

Lemma flat_map_length_le {A B : Type} (f : A -> list B) (l : list A)
    (n : nat) :
  (forall x, length (f x) <= n) -> length (flat_map f l) <= length l * n.
Proof.
  intros H. induction l as [|x l IH]; simpl; [lia|].
  rewrite length_app. specialize (H x). lia.
Qed.

(** Sorting neither drops nor repeats a pair: the result has the pairs the
    loops appended, each as often, and there is at most one pair for each
    question of the first survey and each question of the second. *)
Theorem matching_pairs_count (s1 s2 : Survey) :
  find_matching_questions cut s1 s2 ≡ₚ encountered_pairs cut s1 s2
  /\ length (find_matching_questions cut s1 s2) <= length s1 * length s2.
Proof.
  rewrite find_matching_sorted_encounter. split; [apply sort_desc_perm|].
  rewrite sort_desc_perm. unfold encountered_pairs.
  apply flat_map_length_le. intros item1.
  replace (length s2) with (length s2 * 1) by lia.
  apply flat_map_length_le. intros item2. apply match_items_length.
Qed.

(** Two questions with the same text and the same type, not fill-in-blank,
    are matched with similarity 1 as soon as the text has a token. *)
Theorem same_text_matched (s1 s2 : Survey) (k : str) (q1 q2 : Question) :
  (k, q1) ∈ s1 -> (k, q2) ∈ s2 ->
  qtype q1 = qtype q2 -> qtype q1 <> fill_in_blank ->
  cut k <> [] ->
  exists p,
    p ∈ find_matching_questions cut s1 s2
    /\ question1 p = k /\ question2 p = k
    /\ data1 p = q1 /\ data2 p = q2
    /\ (similarity p == 1)%Q.
Proof.
  intros H1 H2 Ety Hne Hcut.
  destruct (similarity_extremes k k) as [Hone _]. specialize (Hone Hcut).
  exists (mkMatchedPair k k (qtype q1) (calculate_text_similarity cut k k)
                        q1 q2).
  split; [|simpl; auto].
  rewrite find_matching_sorted_encounter, sort_desc_elem, encountered_elem.
  exists (k, q1), (k, q2). split; [exact H1|]. split; [exact H2|].
  apply match_items_elem. simpl. repeat split; auto.
  rewrite Hone. reflexivity.
Qed.

End MatcherFacts.

Lemma similarity_extremes_witness :
  (calculate_text_similarity (split 32%N) (u "do you agree")
                             (u "do you agree") == 1)%Q.
Proof.
  apply (similarity_extremes (split 32%N) (u "do you agree") (u "")).
  vm_compute. discriminate.
Defined.

Lemma same_text_matched_witness :
  exists p,
    p ∈ find_matching_questions (split 32%N)
          [(u "do you agree",
            mkQuestion (u "do you agree") single_choice [u "A"] [1%Z])]
          [(u "do you agree",
            mkQuestion (u "do you agree") single_choice [u "B"] [2%Z])]
    /\ (similarity p == 1)%Q.
Proof.
  destruct (same_text_matched (split 32%N)
    [(u "do you agree",
      mkQuestion (u "do you agree") single_choice [u "A"] [1%Z])]
    [(u "do you agree",
      mkQuestion (u "do you agree") single_choice [u "B"] [2%Z])]
    (u "do you agree")
    (mkQuestion (u "do you agree") single_choice [u "A"] [1%Z])
    (mkQuestion (u "do you agree") single_choice [u "B"] [2%Z]))
    as (p & Hp & _ & _ & _ & _ & Hs).
  - apply list_elem_of_singleton. reflexivity.
  - apply list_elem_of_singleton. reflexivity.
  - reflexivity.
  - discriminate.
  - vm_compute. discriminate.
  - exists p. auto.
Defined.

(** ** More on the comparison of a matched pair *)

Lemma side_count_eta (o : str) (d : Question) :
  side_count o d
  = side_count o (mkQuestion [] single_choice (options d) (data d)).
Proof. reflexivity. Qed.

Lemma side_counts_self (os : list str) (cs : list Z) :
  NoDup os -> length os = length cs ->
  List.map (fun o => default 0%Z
                       (side_count o (mkQuestion [] single_choice os cs)))
           os
  = cs.
Proof.
  intros Hnd. revert cs. induction Hnd as [|o os Hnotin Hnd IH];
    intros [|c cs] Hlen; try discriminate; [reflexivity|].
  simpl in Hlen. cbn [List.map]. f_equal.
  - unfold side_count. simpl.
    rewrite bool_decide_eq_true_2 by (apply elem_of_cons; now left).
    rewrite decide_True by reflexivity. reflexivity.
  - etransitivity; [|apply (IH cs); lia]. apply map_ext_in. intros o' Hin.
    apply list_elem_of_In in Hin.
    assert (Hne : o <> o') by (intros ->; contradiction).
    unfold side_count. simpl.
    rewrite bool_decide_eq_true_2 by (apply elem_of_cons; now right).
    rewrite bool_decide_eq_true_2 by exact Hin.
    rewrite decide_False by exact Hne.
    destruct (index_of o' os); reflexivity.
Qed.

Lemma align_loop_map (d1 d2 : Question) (opts : list str) (c1 c2 : list Z) :
  align_loop opts d1 d2 = Some (c1, c2) ->
  c1 = List.map (fun o => default 0%Z (side_count o d1)) opts
  /\ c2 = List.map (fun o => default 0%Z (side_count o d2)) opts.
Proof.
  revert c1 c2. induction opts as [|o opts IH]; intros c1 c2; simpl.
  - intros [= <- <-]. auto.
  - destruct (side_count o d1) as [x|]; [|discriminate].
    destruct (side_count o d2) as [y|]; [|discriminate].
    destruct (align_loop opts d1 d2) as [[r1 r2]|]; [|discriminate].
    intros [= <- <-]. destruct (IH r1 r2 eq_refl) as [-> ->]. auto.
Qed.

Lemma sum_map_perm (f : str -> Z) (l k : list str) :
  l ≡ₚ k -> sum_list (List.map f l) = sum_list (List.map f k).
Proof.
  induction 1 as [|x l k _ IH|x y l|l k m _ IH1 _ IH2]; simpl.
  - reflexivity.
  - rewrite !sum_list_cons, IH. reflexivity.
  - rewrite !sum_list_cons. lia.
  - congruence.
Qed.

Lemma sum_map_support (f : str -> Z) (O l : list str) :
  (forall o, o ∉ O -> f o = 0%Z) ->
  sum_list (List.map f l)
  = sum_list (List.map f (filter (fun o => o ∈ O) l)).
Proof.
  intros Hz. induction l as [|x l IH]; [reflexivity|].
  rewrite filter_cons. cbn [List.map]. destruct (decide (x ∈ O)) as [Hx|Hx].
  - cbn [List.map]. rewrite !sum_list_cons, IH. reflexivity.
  - rewrite sum_list_cons, IH, (Hz x Hx). lia.
Qed.

Lemma side_total (d : Question) (opts : list str) :
  NoDup opts -> (forall o, o ∈ options d -> o ∈ opts) ->
  NoDup (options d) -> length (options d) = length (data d) ->
  sum_list (List.map (fun o => default 0%Z (side_count o d)) opts)
  = sum_list (data d).
Proof.
  intros Hopts Hsub Hnd Hlen.
  rewrite (sum_map_support _ (options d)).
  - rewrite (sum_map_perm _ _ (options d)).
    + f_equal. etransitivity;
        [|apply (side_counts_self (options d) (data d) Hnd Hlen)].
      apply map_ext. intros o. now rewrite side_count_eta.
    + apply NoDup_Permutation; [now apply NoDup_filter|exact Hnd|].
      intros o. rewrite list_elem_of_filter. split; [tauto|]. auto.
  - intros o Ho. unfold side_count.
    now rewrite bool_decide_eq_false_2.
Qed.

Section Comparison.

Variable set_to_list : gset str -> list str.
Hypothesis set_to_list_NoDup : forall X, NoDup (set_to_list X).
Hypothesis set_to_list_elem : forall X x, x ∈ set_to_list X <-> x ∈ X.

(** Alignment keeps the totals: on a side whose option labels are all
    different, the aligned counts add up to the counts of the question. *)
Theorem align_totals (d1 d2 : Question) :
  length (options d1) = length (data d1) ->
  length (options d2) = length (data d2) ->
  exists r,
    align set_to_list d1 d2 = Some r
    /\ (NoDup (options d1) -> sum_list (counts1 r) = sum_list (data d1))
    /\ (NoDup (options d2) -> sum_list (counts2 r) = sum_list (data d2)).
Proof.
  intros H1 H2. unfold align.
  set (opts := set_to_list (list_to_set (options d1 ++ options d2))).
  destruct (align_loop_spec d1 d2 H1 H2 opts) as (c1 & c2 & E & _).
  rewrite E. exists (mkAligned opts c1 c2). split; [reflexivity|].
  destruct (align_loop_map _ _ _ _ _ E) as [-> ->]. simpl.
  split; intros Hnd;
    (apply side_total;
     [apply set_to_list_NoDup
     |intros o Ho; unfold opts; rewrite set_to_list_elem,
        elem_of_list_to_set, elem_of_app; tauto
     |exact Hnd|assumption]).
Qed.

Lemma comparison_row_total (d1 d2 : Question) (o : str) :
  length (options d1) = length (data d1) ->
  length (options d2) = length (data d2) ->
  (table_total d1 = 0%Z \/ table_total d2 = 0%Z ->
   comparison_row d1 d2 o = Raised ZeroDivisionError)
  /\ (table_total d1 <> 0%Z -> table_total d2 <> 0%Z ->
      exists row, comparison_row d1 d2 o = Returned row).
Proof.
  intros H1 H2. unfold comparison_row, truediv.
  destruct (side_count_spec o d1 H1) as (x & -> & _).
  destruct (side_count_spec o d2 H2) as (y & -> & _).
  split.
  - intros [-> | ->]; simpl; [reflexivity|].
    destruct (table_total d1 =? 0)%Z; reflexivity.
  - intros N1 N2. apply Z.eqb_neq in N1, N2. rewrite N1, N2. eauto.
Qed.

(** The detailed table of [main] divides by the sum of a side's counts: for
    two questions with parallel options and counts it fails with a division
    by zero exactly when there is an option to show and one side has counts
    that add up to zero; otherwise it has a row for every aligned option. It
    never fails with an index error. *)
Theorem comparison_table_division (d1 d2 : Question) :
  length (options d1) = length (data d1) ->
  length (options d2) = length (data d2) ->
  (comparison_table set_to_list d1 d2 = Raised ZeroDivisionError
   <-> options d1 ++ options d2 <> []
       /\ ((data d1 <> [] /\ sum_list (data d1) = 0%Z)
           \/ (data d2 <> [] /\ sum_list (data d2) = 0%Z)))
  /\ comparison_table set_to_list d1 d2 <> Raised IndexError
  /\ forall rows,
       comparison_table set_to_list d1 d2 = Returned rows ->
       List.map row_option rows
       = set_to_list (list_to_set (options d1 ++ options d2)).
Proof.
  intros H1 H2. unfold comparison_table.
  set (opts := set_to_list (list_to_set (options d1 ++ options d2))).
  assert (Hopts : opts = [] <-> options d1 ++ options d2 = []).
  { unfold opts. split.
    - intros E. destruct (options d1 ++ options d2) as [|o os] eqn:Eo;
        [reflexivity|]. exfalso.
      assert (o ∈ set_to_list (list_to_set (o :: os))) as Hin.
      { apply set_to_list_elem, elem_of_list_to_set, elem_of_cons.
        now left. }
      rewrite E in Hin. inversion Hin.
    - intros ->. destruct (set_to_list (list_to_set [])) as [|o os] eqn:Eo;
        [reflexivity|]. exfalso.
      assert (o ∈ (list_to_set [] : gset str)) as Hin.
      { apply set_to_list_elem. rewrite Eo. apply elem_of_cons. now left. }
      apply elem_of_list_to_set in Hin. inversion Hin. }
  assert (Htot : forall d, table_total d = 0%Z
                           <-> data d <> [] /\ sum_list (data d) = 0%Z).
  { intros d. unfold table_total. destruct (data d); split.
    - discriminate.
    - intros [H _]. contradiction.
    - intros H. split; [discriminate|exact H].
    - tauto. }
  rewrite <- !Htot.
  assert (Hrows : forall l,
    (comparison_rows d1 d2 l = Raised ZeroDivisionError
     <-> l <> [] /\ (table_total d1 = 0%Z \/ table_total d2 = 0%Z))
    /\ comparison_rows d1 d2 l <> Raised IndexError
    /\ forall rows, comparison_rows d1 d2 l = Returned rows ->
                    List.map row_option rows = l).
  { induction l as [|o l (IHz & IHi & IHr)]; simpl.
    - split; [split; [discriminate|tauto]|]. split; [discriminate|].
      now intros rows [= <-].
    - destruct (comparison_row_total d1 d2 o H1 H2) as [Hzero Hok].
      destruct (decide (table_total d1 = 0%Z \/ table_total d2 = 0%Z))
        as [Hz|Hz].
      + rewrite (Hzero Hz). split; [split; [|reflexivity]|].
        * intros _. split; [discriminate|exact Hz].
        * split; discriminate.
      + destruct Hok as [row Erow]; [tauto|tauto|]. rewrite Erow.
        assert (Eo : row_option row = o).
        { unfold comparison_row in Erow.
          destruct (side_count o d1); [|discriminate].
          destruct (side_count o d2); [|discriminate].
          destruct (truediv _ _); [|discriminate].
          destruct (truediv _ _); [|discriminate].
          now injection Erow as <-. }
        destruct (comparison_rows d1 d2 l) as [rows|e] eqn:El.
        * split; [split; [discriminate|tauto]|]. split; [discriminate|].
          intros rows' [= <-]. simpl. rewrite Eo. f_equal. now apply IHr.
        * split; [|split; [congruence|discriminate]].
          split.
          -- intros [= ->]. destruct IHz as [IHz _].
             specialize (IHz eq_refl). tauto.
          -- tauto. }
  destruct (Hrows opts) as (Hz & Hi & Hr).
  split; [|split; [exact Hi|exact Hr]].
  rewrite Hz. rewrite Hopts. tauto.
Qed.

End Comparison.

Lemma align_totals_witness :
  exists r,
    align elements
      (mkQuestion (u "Q") single_choice [u "A"; u "B"] [10; 5]%Z)
      (mkQuestion (u "Q") single_choice [u "B"; u "C"] [20; 1]%Z) = Some r
    /\ sum_list (counts1 r) = 15%Z.
Proof.
  destruct (align_totals elements
              (fun X => NoDup_elements X)
              (fun X x => elem_of_elements X x)
              (mkQuestion (u "Q") single_choice [u "A"; u "B"] [10; 5]%Z)
              (mkQuestion (u "Q") single_choice [u "B"; u "C"] [20; 1]%Z)
              eq_refl eq_refl)
    as (r & E & H1 & _).
  exists r. split; [exact E|]. apply H1. vm_compute.
  repeat constructor; rewrite ?elem_of_cons; intros H;
    repeat (destruct H as [H|H]; [discriminate|]); inversion H.
Defined.

Lemma comparison_table_division_witness :
  comparison_table elements
    (mkQuestion (u "Q") single_choice [u "A"] [0%Z])
    (mkQuestion (u "Q") single_choice [u "A"] [3%Z])
  = Raised ZeroDivisionError.
Proof.
  apply (comparison_table_division elements
           (fun X x => elem_of_elements X x)
           (mkQuestion (u "Q") single_choice [u "A"] [0%Z])
           (mkQuestion (u "Q") single_choice [u "A"] [3%Z])
           eq_refl eq_refl).
  split; [discriminate|]. left. split; [discriminate|reflexivity].
Defined.

Lemma sum_list_member_le (l : list Z) (c : Z) :
  Forall (fun x => (0 <= x)%Z) l -> c ∈ l -> (c <= sum_list l)%Z.
Proof.
  induction 1 as [|x l Hx Hl IH]; intros Hc; [inversion Hc|].
  rewrite sum_list_cons. pose proof (sum_list_nonneg l Hl).
  apply elem_of_cons in Hc as [->|Hc]; [lia|]. specialize (IH Hc). lia.
Qed.

(** The percentages of the single-choice comparison chart never divide by
    zero, and for counts that are not negative each of them lies between 0
    and 100. *)
Theorem chart_percentages_range (counts : list Z) :
  (0 < chart_total counts)%Z
  /\ length (chart_percentages counts) = length counts
  /\ (Forall (fun c => (0 <= c)%Z) counts ->
      Forall (fun pc => (0 <= pc)%Q /\ (pc <= 100)%Q)
             (chart_percentages counts)).
Proof.
  assert (Hpos : (0 < chart_total counts)%Z).
  { unfold chart_total. destruct (0 <? sum_list counts)%Z eqn:E; [|lia].
    now apply Z.ltb_lt in E. }
  split; [exact Hpos|]. split; [apply length_map|].
  intros Hnn. unfold chart_percentages. apply Forall_forall.
  intros pc Hpc. apply list_elem_of_In, in_map_iff in Hpc as (c & <- & Hc).
  apply list_elem_of_In in Hc.
  assert (H0 : (0 <= c)%Z) by (eapply Forall_forall in Hnn; eauto).
  assert (Hle : (c <= chart_total counts)%Z).
  { pose proof (sum_list_member_le counts c Hnn Hc) as Hs.
    unfold chart_total. destruct (0 <? sum_list counts)%Z eqn:E; [exact Hs|].
    apply Z.ltb_ge in E. lia. }
  destruct (chart_total counts) as [|t|t]; try lia.
  unfold Qle, Qdiv, Qmult, Qinv, inject_Z. simpl. split; nia.
Qed.

Lemma chart_percentages_range_witness :
  Forall (fun pc => (0 <= pc)%Q /\ (pc <= 100)%Q)
         (chart_percentages [10; 0; 30]%Z).
Proof.
  apply (chart_percentages_range [10; 0; 30]%Z).
  repeat constructor; lia.
Defined.

(** ** The simulated data table *)

Lemma fit_responses_length (m : nat) (responses : list str) :
  length (fit_responses m responses) = m.
Proof.
  unfold fit_responses.
  destruct (length responses <? m) eqn:E1.
  - apply Nat.ltb_lt in E1. rewrite length_app, length_replicate. lia.
  - apply Nat.ltb_ge in E1. destruct (m <? length responses) eqn:E2.
    + apply Nat.ltb_lt in E2. rewrite length_take. lia.
    + apply Nat.ltb_ge in E2. lia.
Qed.

Lemma max_responses_step_mono (qs : list Question) (m : Z) :
  (m <= fold_left max_responses_step qs m)%Z.
Proof.
  revert m. induction qs as [|q qs IH]; intros m; simpl; [lia|].
  specialize (IH (max_responses_step m q)).
  assert ((m <= max_responses_step m q)%Z); [|lia].
  unfold max_responses_step. destruct (qtype q), (data q); lia.
Qed.

Lemma max_responses_positive (questions : Survey) :
  (0 < max_responses_of questions)%Z.
Proof.
  unfold max_responses_of.
  pose proof (max_responses_step_mono (List.map snd questions) 0).
  destruct (_ =? 0)%Z eqn:E; [lia|]. apply Z.eqb_neq in E. lia.
Qed.

Lemma data_step_columns (rnd : nat -> Q) (m : Z) (questions : Survey) :
  forall acc,
    (forall k col, (k, col) ∈ fst acc -> length col = Z.to_nat m) ->
    forall k col,
      (k, col) ∈ fst (fold_left (data_step rnd m) questions acc) ->
      length col = Z.to_nat m.
Proof.
  induction questions as [|[k0 q0] qs IH]; intros acc Hacc; [exact Hacc|].
  simpl. apply IH. unfold data_step. simpl.
  destruct (question_responses rnd (snd acc) m q0) as [responses n'].
  destruct (qtype q0); try exact Hacc;
    (simpl; intros k col H; apply dict_set_elem in H as [H|[_ ->]];
     [now apply (Hacc k)|apply fit_responses_length]).
Qed.

(** Whatever the random draws, every column of the simulated table has the
    same number of entries, [max_responses], which is positive; so the data
    frame can be built and the probabilities never divide by zero. *)
Theorem simulated_table_columns (rnd : nat -> Q) (questions : Survey)
    (data_dict : Dict (list str)) :
  create_data_from_parsed_questions rnd questions = Some data_dict ->
  (0 < max_responses_of questions)%Z
  /\ forall k col, (k, col) ∈ data_dict ->
       length col = Z.to_nat (max_responses_of questions).
Proof.
  intros H. split; [apply max_responses_positive|].
  assert (E : data_dict = data_columns rnd questions).
  { unfold create_data_from_parsed_questions in H.
    destruct questions; [discriminate|].
    destruct (data_columns rnd _); [discriminate|]. congruence. }
  subst data_dict. unfold data_columns. apply data_step_columns.
  intros k col Hin. inversion Hin.
Qed.

Lemma simulated_table_columns_witness :
  length [u "5"; []; []] = Z.to_nat 3.
Proof.
  destruct (simulated_table_columns (fun _ => 0%Q)
           [(u "Q", mkQuestion (u "Q") single_choice [u "A"; u "B"]
                               [2; 1]%Z);
            (u "C", mkQuestion (u "C") fill_in_blank [] [7%Z]);
            (u "R", mkQuestion (u "R") rating [u "5"] [1%Z])]
           [(u "Q", [u "A"; u "A"; u "B"]); (u "R", [u "5"; []; []])])
    as [_ H]; [vm_compute; reflexivity|].
  apply (H (u "R")).
  apply elem_of_cons. right. apply elem_of_cons. now left.
Defined.

Lemma dict_set_nonempty {V : Type} (k : str) (v : V) (d : Dict V) :
  dict_set k v d <> [].
Proof.
  destruct d as [|[k0 v0] d]; simpl; [discriminate|].
  destruct (decide (k0 = k)); discriminate.
Qed.

Lemma data_step_empty (rnd : nat -> Q) (m : Z) (questions : Survey) :
  forall acc,
    fst (fold_left (data_step rnd m) questions acc) = []
    <-> fst acc = []
        /\ forall k q, (k, q) ∈ questions -> qtype q = fill_in_blank.
Proof.
  induction questions as [|[k0 q0] qs IH]; intros acc; simpl.
  - split; [intros H; split; [exact H|]|tauto]. intros k q Hq. inversion Hq.
  - rewrite IH. unfold data_step. simpl.
    destruct (question_responses rnd (snd acc) m q0) as [responses n'].
    destruct (qtype q0) eqn:Ety; simpl.
    1-3: split; [intros [H _]; now apply dict_set_nonempty in H|];
         intros [_ H]; specialize (H k0 q0 ltac:(apply elem_of_cons; now left));
         congruence.
    split; intros [Ha Hq]; (split; [exact Ha|]).
    + intros k q Hin. apply elem_of_cons in Hin as [[= -> ->]|Hin];
        [exact Ety|now apply (Hq k)].
    + intros k q Hin. apply (Hq k). apply elem_of_cons. now right.
Qed.

(** No table is made exactly when the survey has no question other than
    fill-in-blank questions, the empty survey included. *)
Theorem simulated_table_none (rnd : nat -> Q) (questions : Survey) :
  create_data_from_parsed_questions rnd questions = None
  <-> forall k q, (k, q) ∈ questions -> qtype q = fill_in_blank.
Proof.
  unfold create_data_from_parsed_questions.
  destruct questions as [|item qs] eqn:Eq.
  - split; [|reflexivity]. intros _ k q H. inversion H.
  - rewrite <- Eq.
    pose proof (data_step_empty rnd (max_responses_of questions) questions
                                ([], 0)) as H.
    fold (data_columns rnd questions) in H. simpl in H.
    destruct (data_columns rnd questions) as [|c cs].
    + split; [intros _|reflexivity]. now apply H.
    + split; [discriminate|]. intros Hq.
      assert (c :: cs = []) by (apply H; auto). discriminate.
Qed.

Lemma dict_get_None {V : Type} (k : str) (d : Dict V) :
  k ∉ List.map fst d -> dict_get k d = None.
Proof.
  induction d as [|[k0 v0] d IH]; simpl; [reflexivity|].
  rewrite elem_of_cons. intros H.
  rewrite decide_False by (intros ->; tauto). apply IH. tauto.
Qed.

(** The columns after the loop over the questions. *)
Lemma data_step_fold (rnd : nat -> Q) (m : Z) (questions : Survey) :
  forall acc,
    NoDup (List.map fst questions) ->
    (forall k, k ∈ List.map fst questions -> k ∉ List.map fst (fst acc)) ->
    let d := fst (fold_left (data_step rnd m) questions acc) in
    List.map fst d
    = List.map fst (fst acc)
      ++ List.map fst
           (List.filter (fun item => negb (is_fill_in_blank
                                             (qtype (snd item))))
                        questions)
    /\ (forall k, k ∉ List.map fst questions ->
                  dict_get k d = dict_get k (fst acc))
    /\ (forall k q, (k, q) ∈ questions -> qtype q <> fill_in_blank ->
          exists n, dict_get k d
                    = Some (fit_responses (Z.to_nat m)
                              (fst (question_responses rnd n m q)))).
Proof.
  induction questions as [|[k0 q0] qs IH]; intros [d0 n0] Hnd Hfresh.
  - simpl. rewrite app_nil_r. repeat split. intros k q H. inversion H.
  - cbn [List.map fst] in Hnd. apply NoDup_cons in Hnd as [Hk0 Hnd].
    cbn [fold_left]. remember (data_step rnd m (d0, n0) (k0, q0)) as acc1
      eqn:Eacc1.
    assert (Hk0d : k0 ∉ List.map fst d0).
    { apply (Hfresh k0). apply elem_of_cons. now left. }
    assert (Hacc1 :
      (qtype q0 = fill_in_blank /\ acc1 = (d0, n0))
      \/ (qtype q0 <> fill_in_blank
          /\ List.map fst (fst acc1) = List.map fst d0 ++ [k0]
          /\ dict_get k0 (fst acc1)
             = Some (fit_responses (Z.to_nat m)
                       (fst (question_responses rnd n0 m q0)))
          /\ forall k, k <> k0 ->
               dict_get k (fst acc1) = dict_get k d0)).
    { rewrite Eacc1. unfold data_step. simpl.
      destruct (question_responses rnd n0 m q0) as [responses n'] eqn:Er.
      destruct (decide (qtype q0 = fill_in_blank)) as [E|E].
      - left. rewrite E. auto.
      - right. split; [exact E|].
        assert (Hset : forall v : list str,
          List.map fst (dict_set k0 v d0) = List.map fst d0 ++ [k0]).
        { intros v. rewrite dict_set_keys.
          now rewrite bool_decide_eq_false_2. }
        destruct (qtype q0); try contradiction; simpl;
          (split; [apply Hset|split; [apply dict_get_set_eq|]];
           intros k Hk; now apply dict_get_set_ne). }
    assert (Hfresh1 : forall k, k ∈ List.map fst qs ->
                                k ∉ List.map fst (fst acc1)).
    { intros k Hk.
      assert (k ∉ List.map fst d0)
        by (apply Hfresh; apply elem_of_cons; now right).
      unfold Dict in *.
      destruct Hacc1 as [[_ E1]|(_ & E1 & _)]; rewrite E1; [assumption|].
      rewrite elem_of_app, list_elem_of_singleton. intros [H'| ->]; tauto. }
    destruct (IH acc1 Hnd Hfresh1) as (IHk & IHo & IHq).
    cbn [List.filter snd]. unfold is_fill_in_blank at 1.
    unfold Dict in *.
    split; [|split].
    + rewrite IHk. destruct Hacc1 as [[E E1]|(E & E1 & _)]; rewrite E1.
      * rewrite bool_decide_eq_true_2 by exact E. reflexivity.
      * rewrite bool_decide_eq_false_2 by exact E. simpl.
        now rewrite <- app_assoc.
    + intros k Hk. cbn [List.map fst] in Hk. rewrite elem_of_cons in Hk.
      rewrite IHo by tauto.
      destruct Hacc1 as [[_ E1]|(_ & _ & _ & Hother)];
        [rewrite E1; reflexivity|].
      apply Hother. tauto.
    + intros k q Hin Hty. apply elem_of_cons in Hin as [[= -> ->]|Hin].
      * exists n0. rewrite IHo by exact Hk0.
        destruct Hacc1 as [[E _]|(_ & _ & Hget & _)]; [contradiction|].
        exact Hget.
      * now apply (IHq k q).
Qed.

(** The table has one column for each question that is not fill-in-blank,
    under the text of the question and in the order of the survey. *)
Theorem simulated_table_keys (rnd : nat -> Q) (questions : Survey) :
  NoDup (List.map fst questions) ->
  List.map fst (data_columns rnd questions)
  = List.map fst
      (List.filter (fun item => negb (is_fill_in_blank (qtype (snd item))))
                   questions).
Proof.
  intros Hnd. unfold data_columns.
  destruct (data_step_fold rnd (max_responses_of questions) questions
                           ([], 0) Hnd) as (Hk & _).
  - intros k _ H. inversion H.
  - exact Hk.
Qed.

Lemma simulated_table_keys_witness :
  List.map fst
    (data_columns (fun _ => 0%Q)
       [(u "Q", mkQuestion (u "Q") single_choice [u "A"] [2%Z]);
        (u "C", mkQuestion (u "C") fill_in_blank [] [7%Z])])
  = [u "Q"].
Proof.
  apply (simulated_table_keys (fun _ => 0%Q)
           [(u "Q", mkQuestion (u "Q") single_choice [u "A"] [2%Z]);
            (u "C", mkQuestion (u "C") fill_in_blank [] [7%Z])]).
  vm_compute. repeat constructor; rewrite ?elem_of_cons; intros H;
    repeat (destruct H as [H|H]; [discriminate|]); inversion H.
Defined.

Lemma filter_replicate_ne (o x : str) (n : nat) :
  x <> o -> filter (fun y => y = o) (replicate n x) = [].
Proof.
  intros Hne. induction n as [|n IH]; [reflexivity|].
  cbn [replicate]. rewrite filter_cons, decide_False by exact Hne. exact IH.
Qed.

Lemma filter_replicate_eq (o : str) (n : nat) :
  filter (fun y => y = o) (replicate n o) = replicate n o.
Proof.
  induction n as [|n IH]; [reflexivity|].
  cbn [replicate]. rewrite filter_cons, decide_True by reflexivity.
  now rewrite IH.
Qed.

Lemma expand_absent (o : str) (os : list str) (cs : list Z) :
  o ∉ os ->
  filter (fun y => y = o)
         (flat_map (fun oc : str * Z => replicate (Z.to_nat (snd oc)) (fst oc))
                   (combine os cs)) = [].
Proof.
  revert cs. induction os as [|x os IH]; intros [|c cs] Hnot;
    try reflexivity.
  rewrite elem_of_cons in Hnot. cbn [combine flat_map fst snd].
  rewrite filter_app, filter_replicate_ne by (intros ->; tauto).
  apply IH. tauto.
Qed.

Lemma expand_count (o : str) (c : Z) (os : list str) :
  NoDup os ->
  forall cs j,
    os !! j = Some o -> cs !! j = Some c ->
    length (filter (fun y => y = o)
              (flat_map (fun oc : str * Z =>
                           replicate (Z.to_nat (snd oc)) (fst oc))
                        (combine os cs)))
    = Z.to_nat c.
Proof.
  induction 1 as [|x os Hx Hnd IH]; intros [|c0 cs] [|j] Ho Hc;
    try discriminate.
  - simpl in Ho, Hc. injection Ho as ->. injection Hc as ->.
    cbn [combine flat_map fst snd].
    rewrite filter_app, filter_replicate_eq, expand_absent by exact Hx.
    rewrite app_nil_r. apply length_replicate.
  - simpl in Ho, Hc. cbn [combine flat_map fst snd].
    assert (x <> o).
    { intros ->. apply Hx. apply list_elem_of_lookup. eauto. }
    rewrite filter_app, filter_replicate_ne by assumption.
    now apply (IH cs j).
Qed.

Lemma expand_length (os : list str) (cs : list Z) :
  length os = length cs -> Forall (fun c => (0 <= c)%Z) cs ->
  Z.of_nat (length (flat_map (fun oc : str * Z =>
                                replicate (Z.to_nat (snd oc)) (fst oc))
                             (combine os cs)))
  = sum_list cs.
Proof.
  revert cs. induction os as [|o os IH]; intros [|c cs] Hlen Hnn;
    try discriminate; [reflexivity|].
  apply Forall_cons in Hnn as [Hc Hnn]. simpl in Hlen.
  cbn [combine flat_map fst snd].
  rewrite length_app, length_replicate, Nat2Z.inj_add, IH, sum_list_cons
    by (auto; lia).
  lia.
Qed.

Lemma max_responses_fold_ge (qs : list Question) (q : Question) :
  q ∈ qs -> qtype q <> fill_in_blank -> data q <> [] ->
  forall m, (sum_list (data q) <= fold_left max_responses_step qs m)%Z.
Proof.
  induction qs as [|q0 qs IH]; intros Hin Hty Hd m; [inversion Hin|].
  simpl. apply elem_of_cons in Hin as [->|Hin]; [|now apply IH].
  etransitivity; [|apply max_responses_step_mono].
  unfold max_responses_step. destruct (qtype q0); try contradiction;
    (destruct (data q0); [contradiction|lia]).
Qed.

Lemma max_responses_ge (questions : Survey) (k : str) (q : Question) :
  (k, q) ∈ questions -> qtype q <> fill_in_blank ->
  Forall (fun c => (0 <= c)%Z) (data q) ->
  (sum_list (data q) <= max_responses_of questions)%Z.
Proof.
  intros Hin Hty Hnn. pose proof (max_responses_positive questions) as Hpos.
  destruct (data q) as [|d ds] eqn:Ed.
  { unfold sum_list. simpl. lia. }
  assert (Hq : q ∈ List.map snd questions).
  { apply list_elem_of_In, in_map_iff. exists (k, q).
    split; [reflexivity|now apply list_elem_of_In]. }
  pose proof (max_responses_fold_ge _ q Hq Hty ltac:(rewrite Ed; discriminate)
                                    0%Z) as Hge.
  rewrite Ed in Hge. unfold max_responses_of in *.
  destruct (_ =? 0)%Z eqn:E; [|exact Hge].
  apply Z.eqb_eq in E. lia.
Qed.

Lemma fit_responses_pad (m : nat) (responses : list str) :
  length responses <= m ->
  fit_responses m responses
  = responses ++ replicate (m - length responses) [].
Proof.
  intros Hle. unfold fit_responses.
  destruct (length responses <? m) eqn:E1; [reflexivity|].
  apply Nat.ltb_ge in E1.
  replace (m <? length responses) with false
    by (symmetry; apply Nat.ltb_ge; lia).
  replace (m - length responses) with 0 by lia. simpl.
  now rewrite app_nil_r.
Qed.

(** The simulated column of a single-choice or rating question gives its
    counts back: when the question has parallel options and counts, no
    negative count and no repeated option label, every option that is not
    the empty string occurs in the column exactly as often as its count
    says. *)
Theorem simulated_column_counts (rnd : nat -> Q) (questions : Survey)
    (k : str) (q : Question) (j : nat) (o : str) (c : Z) :
  NoDup (List.map fst questions) ->
  (k, q) ∈ questions ->
  qtype q = single_choice \/ qtype q = rating ->
  length (options q) = length (data q) ->
  Forall (fun x => (0 <= x)%Z) (data q) ->
  NoDup (options q) ->
  options q !! j = Some o -> data q !! j = Some c ->
  o <> [] ->
  exists col,
    dict_get k (data_columns rnd questions) = Some col
    /\ Z.of_nat (length (filter (fun y => y = o) col)) = c.
Proof.
  intros Hkeys Hin Hty Hlen Hnn Hnd Ho Hc Hne.
  destruct (data_step_fold rnd (max_responses_of questions) questions
                           ([], 0) Hkeys) as (_ & _ & Hq).
  { intros k' _ H. inversion H. }
  destruct (Hq k q Hin) as [n Hget].
  { destruct Hty as [-> | ->]; discriminate. }
  fold (data_columns rnd questions) in Hget.
  eexists. split; [exact Hget|].
  assert (Hresp : fst (question_responses rnd n (max_responses_of questions) q)
                  = expand_responses q).
  { unfold question_responses.
    destruct (options q); [discriminate|].
    destruct (data q); [discriminate|].
    destruct Hty as [-> | ->]; reflexivity. }
  rewrite Hresp.
  pose proof (expand_length _ _ Hlen Hnn) as Hel.
  fold (expand_responses q) in Hel.
  assert (Hle : (sum_list (data q) <= max_responses_of questions)%Z).
  { apply (max_responses_ge questions k q Hin); [|exact Hnn].
    destruct Hty as [-> | ->]; discriminate. }
  rewrite fit_responses_pad by lia.
  rewrite filter_app, filter_replicate_ne, app_nil_r by congruence.
  unfold expand_responses. rewrite (expand_count o c _ Hnd _ j Ho Hc).
  apply Z2Nat.id. eapply Forall_forall in Hnn; [exact Hnn|].
  apply list_elem_of_lookup. eauto.
Qed.

Lemma simulated_column_counts_witness :
  exists col,
    dict_get (u "Q")
      (data_columns (fun _ => 0%Q)
         [(u "Q", mkQuestion (u "Q") single_choice [u "A"; u "B"] [2; 1]%Z);
          (u "R", mkQuestion (u "R") rating [u "5"] [7%Z])]) = Some col
    /\ Z.of_nat (length (filter (fun y => y = u "B") col)) = 1%Z.
Proof.
  apply (simulated_column_counts (fun _ => 0%Q)
           [(u "Q", mkQuestion (u "Q") single_choice [u "A"; u "B"] [2; 1]%Z);
            (u "R", mkQuestion (u "R") rating [u "5"] [7%Z])]
           (u "Q")
           (mkQuestion (u "Q") single_choice [u "A"; u "B"] [2; 1]%Z)
           1 (u "B") 1%Z).
  - vm_compute. repeat constructor; rewrite ?elem_of_cons; intros H;
      repeat (destruct H as [H|H]; [discriminate|]); inversion H.
  - apply elem_of_cons. now left.
  - now left.
  - reflexivity.
  - repeat constructor; lia.
  - vm_compute. repeat constructor; rewrite ?elem_of_cons; intros H;
      repeat (destruct H as [H|H]; [discriminate|]); inversion H.
  - reflexivity.
  - reflexivity.
  - vm_compute. discriminate.
Defined.

(** ** Lines that do not matter to the parser *)

Lemma blank_step (st : scan_state) (l : str) :
  strip l = [] -> line_step st l = st.
Proof.
  intros E. destruct st as [cur qs|ty txt cq qs]; simpl.
  - unfold outer_step. rewrite E. reflexivity.
  - rewrite E. reflexivity.
Qed.

(** Blank lines never matter: a line of whitespace only can be inserted
    anywhere, also between the data lines of a block, without changing the
    parse result. *)
Theorem blank_line_insertion (pre : list str) (l : str) (post : list str) :
  strip l = [] ->
  parse_lines (pre ++ l :: post) = parse_lines (pre ++ post).
Proof.
  intros E. rewrite !parse_lines_scan. unfold scan_lines.
  rewrite !fold_left_app. simpl. now rewrite blank_step.
Qed.

Lemma blank_line_insertion_witness :
  parse_lines ([u "问题1:【单选题】Q"; u "A: 1"] ++ u "   " :: [u "B: 2"])
  = parse_lines ([u "问题1:【单选题】Q"; u "A: 1"] ++ [u "B: 2"]).
Proof.
  apply (blank_line_insertion [u "问题1:【单选题】Q"; u "A: 1"] (u "   ")
                              [u "B: 2"]).
  vm_compute. reflexivity.
Defined.

(** Whatever comes before the first question line is ignored. *)
Theorem preamble_ignored (preamble rest : list str) :
  (forall l, l ∈ preamble -> is_question_header (strip l) = false) ->
  parse_lines (preamble ++ rest) = parse_lines rest.
Proof.
  intros H. rewrite !parse_lines_scan. unfold scan_lines.
  rewrite fold_left_app, fold_outer_plain by exact H. reflexivity.
Qed.

Lemma preamble_ignored_witness :
  parse_lines ([u "Survey results"; u "total: 12"]
               ++ [u "问题1:【填空题】C"; u "37"])
  = parse_lines [u "问题1:【填空题】C"; u "37"].
Proof.
  apply (preamble_ignored [u "Survey results"; u "total: 12"]
                          [u "问题1:【填空题】C"; u "37"]).
  intros l Hl.
  repeat (apply elem_of_cons in Hl as [->|Hl]; [vm_compute; reflexivity|]).
  inversion Hl.
Defined.




